(** * PAM PostgreSQL proxy: tunnel registry, session pipeline and direct pool

    A shallow embedding of
    - [backend/src/ee/services/pam-session/pgsql/pam-pgsql-tcp-gateway-service.ts]
      (class [PamPostgresTcpGatewayService]),
    - [backend/src/ee/services/pam-session/pgsql/pam-pgsql-proxy-service.ts]
      (class [PamPostgresProxyService]) and
    - the direct connection pool (class [PAMSessionConnectionPool]).

    Asynchronous methods are run to completion one at a time: an [await] is a
    sequencing point, and what the network, the database driver and the
    collaborating services answer is read from an explicit environment
    record.  Mutable objects (sockets, tunnel handles, driver connections)
    live in heaps indexed by their allocation number, so that two references
    to one object stay two names of the same cell. *)

From stdpp Require Import gmap strings list fin_maps pretty.
From Stdlib Require Import ZArith Ascii Lia.

Open Scope string_scope.
Open Scope list_scope.

(** ** Thrown values and results *)

(** The error classes the code constructs or tests for.  [BadRequestError]
    and [NotFoundError] come from [@app/lib/errors]; both extend the
    built-in [Error], and their [message] is the one passed to the
    constructor. *)
Inductive ErrorClass := Error | TypeError | BadRequestError | NotFoundError.

(** A JavaScript [throw] can carry any value.  [ErrorObj] is an instance of
    [Error] (or of a subclass); [NonError] is anything else. *)
Inductive Thrown :=
| ErrorObj (cls : ErrorClass) (message : string)
| NonError (shown : string).

Inductive Result (A : Type) :=
| Ok (a : A)
| Throw (e : Thrown).
Arguments Ok {A} a.
Arguments Throw {A} e.

(** [error instanceof Error ? error.message : dflt] *)
Definition message_or (error : Thrown) (dflt : string) : string :=
  match error with
  | ErrorObj _ m => m
  | NonError _ => dflt
  end.

(** JavaScript truthiness of a value of type [string | undefined]. *)
Definition truthy (v : option string) : bool :=
  match v with
  | Some s => negb (String.eqb s "")
  | None => false
  end.

Global Instance ErrorClass_eq_dec : EqDecision ErrorClass.
Proof. solve_decision. Defined.
Global Instance Thrown_eq_dec : EqDecision Thrown.
Proof. solve_decision. Defined.

(** ** A state-and-exception monad

    A computation reads and writes a store of type [St] and either returns
    or throws.  The store survives a throw, as the heap of a JavaScript
    program does. *)
Definition Eff (St A : Type) : Type := St -> Result A * St.

Definition ret {St A} (a : A) : Eff St A := fun st => (Ok a, st).

Definition throw {St A} (e : Thrown) : Eff St A := fun st => (Throw e, st).

Definition bind {St A B} (m : Eff St A) (k : A -> Eff St B) : Eff St B :=
  fun st =>
    match m st with
    | (Ok a, st') => k a st'
    | (Throw e, st') => (Throw e, st')
    end.

(** [try { m } catch (error) { h error }] *)
Definition try_catch {St A} (m : Eff St A) (h : Thrown -> Eff St A) : Eff St A :=
  fun st =>
    match m st with
    | (Ok a, st') => (Ok a, st')
    | (Throw e, st') => h e st'
    end.

(** [try { m } finally { f }]: [f] always runs; a throw of [f] replaces the
    outcome of [m]. *)
Definition try_finally {St A} (m : Eff St A) (f : Eff St unit) : Eff St A :=
  fun st =>
    match m st with
    | (r, st') =>
        match f st' with
        | (Ok _, st'') => (r, st'')
        | (Throw e, st'') => (Throw e, st'')
        end
    end.

Definition gets {St A} (f : St -> A) : Eff St A := fun st => (Ok (f st), st).

Definition modify {St} (f : St -> St) : Eff St unit := fun st => (Ok tt, f st).

(** A settled promise, awaited. *)
Definition lift_result {St A} (r : Result A) : Eff St A := fun st => (r, st).

Declare Scope eff_scope.
Delimit Scope eff_scope with eff.
Notation "x <- m ;; k" := (bind m (fun x => k))
  (at level 100, m at next level, right associativity) : eff_scope.
Notation "m ;;; k" := (bind m (fun _ => k))
  (at level 100, right associativity) : eff_scope.
Open Scope eff_scope.

(** ** Values exchanged with the collaborators *)

(** [o?.f]: optional chaining into a field that may itself be absent. *)
Definition opt_chain {A B} (o : option A) (f : A -> option B) : option B :=
  match o with
  | Some a => f a
  | None => None
  end.

(** One leg of the certificate material returned by the gateway-v2
    service. *)
Record CertificateBundle := {
  clientCertificate : option string;
  clientPrivateKey : option string;
  serverCertificateChain : option string
}.

(** The nested value [getPAMConnectionDetails] resolves to:
    [{relayHost, relay: {...}, gateway: {...}}], every part optional. *)
Record GatewayV2ConnectionDetails := {
  details_relayHost : option string;
  relay : option CertificateBundle;
  gateway : option CertificateBundle
}.

(** The members of the enums [PamResource] and [ActorType] the code names. *)
Inductive PamResource := Postgres | MySQL.
Inductive ActorType := USER | OtherActorType (name : string).

(** The argument of [gatewayV2Service.getPAMConnectionDetails]; the proxy
    service fills [gatewayId], the TCP gateway service [gatewayIdentityId]. *)
Record PAMConnectionRequest := {
  req_sessionId : string;
  req_gatewayId : option string;
  req_gatewayIdentityId : option string;
  req_resourceType : PamResource;
  req_host : string;
  req_port : Z;
  req_actor_id : string;
  req_actor_type : ActorType;
  req_actor_name : string
}.

(** Modelled from the spec: the session credentials of
    [PostgresSessionCredentialsSchema], whose schema file is not among the
    sources: [{host, port, database, username, password, sslEnabled,
    sslRejectUnauthorized, sslCertificate?}]. *)
Record PostgresSessionCredentials := {
  host : string;
  port : Z;
  database : string;
  username : string;
  password : string;
  sslEnabled : bool;
  sslRejectUnauthorized : bool;
  sslCertificate : option string
}.

(** A cell of a result row. *)
Inductive JsValue :=
| VUndefined
| VNull
| VBool (b : bool)
| VNumber (z : Z)
| VString (s : string).

(** What [client.query(sql)] of the [pg] driver resolves to, as far as the
    code reads it. *)
Record DriverResult := {
  driver_fields : list (string * Z);          (* [name], [dataTypeID] *)
  driver_rows : list (gmap string JsValue);
  driver_rowCount : option Z                  (* [number | null] *)
}.

Record QueryResult := {
  fields : list (string * string);            (* [name], [dataType] *)
  rows : list (list JsValue);
  rowCount : Z;
  success : bool
}.

(** The options of [new Client({...})] for the [pg] driver. *)
Record PgClientConfig := {
  pg_host : string;
  pg_port : Z;
  pg_database : string;
  pg_user : string;
  pg_password : string;
  pg_ssl : option (option string * bool);     (* [false], or [{ca, rejectUnauthorized}] *)
  pg_connectionTimeoutMillis : Z
}.

(** ** The TCP gateway service *)
Module TcpGateway.

(** A [tls.TLSSocket].  [destroyed] is the flag the code reads;
    [destroy_error], when present, is what a call of [destroy()] on this
    socket throws (the code guards against it with a [try]/[catch]). *)
Record TLSSocket := {
  destroyed : bool;
  destroy_error : option Thrown
}.

(** [interface PostgresTunnelConnection]; the two sockets are references
    into the socket heap. *)
Record PostgresTunnelConnection := {
  relaySocket : nat;
  gatewaySocket : nat;
  isActive : bool
}.

(** The heap of sockets, the heap of tunnel objects, and the field
    [activeTunnels = new Map<string, PostgresTunnelConnection>()], whose
    values are references to tunnel objects. *)
Record State := {
  sockets : list TLSSocket;
  tunnels : list PostgresTunnelConnection;
  activeTunnels : gmap string nat
}.

Global Instance TLSSocket_eq_dec : EqDecision TLSSocket.
Proof. solve_decision. Defined.
Global Instance PostgresTunnelConnection_eq_dec : EqDecision PostgresTunnelConnection.
Proof. solve_decision. Defined.
Global Instance State_eq_dec : EqDecision State.
Proof. solve_decision. Defined.

Definition set_sockets (f : list TLSSocket -> list TLSSocket) (st : State) : State :=
  {| sockets := f (sockets st); tunnels := tunnels st; activeTunnels := activeTunnels st |}.

Definition set_tunnels
    (f : list PostgresTunnelConnection -> list PostgresTunnelConnection) (st : State) : State :=
  {| sockets := sockets st; tunnels := f (tunnels st); activeTunnels := activeTunnels st |}.

Definition set_activeTunnels (f : gmap string nat -> gmap string nat) (st : State) : State :=
  {| sockets := sockets st; tunnels := tunnels st; activeTunnels := f (activeTunnels st) |}.

Definition initial : State :=
  {| sockets := []; tunnels := []; activeTunnels := ∅ |}.

(** [socket.destroy()] *)
Definition destroy (sock : nat) : Eff State unit :=
  fun st =>
    match sockets st !! sock with
    | Some s =>
        match destroy_error s with
        | Some e => (Throw e, st)
        | None =>
            (Ok tt, set_sockets
                      (fun l => <[sock := {| destroyed := true; destroy_error := None |}]> l) st)
        end
    | None => (Ok tt, st)
    end.

(** [if (sock && !sock.destroyed) sock.destroy()] *)
Definition destroy_if_open (sock : nat) : Eff State unit :=
  fun st =>
    match sockets st !! sock with
    | Some s => if destroyed s then (Ok tt, st) else destroy sock st
    | None => (Ok tt, st)
    end.

(** [tunnel.isActive = false] on the tunnel object [t]. *)
Definition mark_inactive (t : nat) : Eff State unit :=
  modify (set_tunnels (fun l =>
    match l !! t with
    | Some tun =>
        <[t := {| relaySocket := relaySocket tun;
                  gatewaySocket := gatewaySocket tun;
                  isActive := false |}]> l
    | None => l
    end)).

(** The [try]/[catch] block of [closeTunnel]: the gateway socket, then the
    relay socket, each destroyed unless it already is; whatever is thrown
    is ignored. *)
Definition destroy_streams (t : nat) : Eff State unit :=
  try_catch
    (tun <- gets (fun st => tunnels st !! t) ;;
     match tun with
     | Some tun =>
         destroy_if_open (gatewaySocket tun) ;;;
         destroy_if_open (relaySocket tun)
     | None => ret tt
     end)
    (fun _ => ret tt).

(** [private async closeTunnel(sessionId)] *)
Definition closeTunnel (sessionId : string) : Eff State unit :=
  tunnel <- gets (fun st => activeTunnels st !! sessionId) ;;
  match tunnel with
  | Some t =>
      mark_inactive t ;;;
      destroy_streams t ;;;
      modify (set_activeTunnels (delete sessionId))
  | None => ret tt
  end.


(** *** Parsing of [relayHost] *)

(** [s.includes(c)] for a one-character needle. *)
Fixpoint includes (c : ascii) (s : string) : bool :=
  match s with
  | EmptyString => false
  | String a s' => if Ascii.eqb a c then true else includes c s'
  end.

(** [s.split(c)] for a one-character separator.  The result of [split] is
    never empty, so it is returned as its first element and the list of the
    others. *)
Fixpoint split (c : ascii) (s : string) : string * list string :=
  match s with
  | EmptyString => (EmptyString, [])
  | String a s' =>
      let '(h, t) := split c s' in
      if Ascii.eqb a c then (EmptyString, h :: t) else (String a h, t)
  end.

(** A JavaScript number that is either [NaN] or an integer.  Numbers are
    IEEE doubles, so [Int z] stands for the double nearest to [z]; it is
    [z] itself whenever [|z| <= 2^53]. *)
Inductive Number := NaN | Int (z : Z).

Global Instance Number_eq_dec : EqDecision Number.
Proof. solve_decision. Defined.

Definition max_exact_integer : Z := 2 ^ 53.

(** A [string] holds the UTF-8 bytes of the JavaScript string.  The code
    points [parseInt] skips as white space are the ECMAScript [WhiteSpace]
    and [LineTerminator] ones: one byte for the ASCII part, two bytes for
    U+00A0, three bytes for the others. *)

(** U+0009 to U+000D and U+0020. *)
Definition is_white_space (a : ascii) : bool :=
  let n := N_of_ascii a in
  ((9 <=? n) && (n <=? 13) || (n =? 32))%N.

(** U+00A0, the no-break space: bytes C2 A0. *)
Definition is_white_space_2 (a b : ascii) : bool :=
  ((N_of_ascii a =? 194) && (N_of_ascii b =? 160))%N.

(** U+1680 (E1 9A 80); U+2000 to U+200A, U+2028, U+2029 and U+202F
    (E2 80 80 to 8A, A8, A9, AF); U+205F (E2 81 9F); U+3000 (E3 80 80);
    U+FEFF (EF BB BF). *)
Definition is_white_space_3 (a b c : ascii) : bool :=
  let x := N_of_ascii a in
  let y := N_of_ascii b in
  let z := N_of_ascii c in
  ((x =? 225) && ((y =? 154) && (z =? 128))
   || (x =? 226) && ((y =? 128)
                     && ((128 <=? z) && (z <=? 138)
                         || (z =? 168) || (z =? 169) || (z =? 175)))
   || (x =? 226) && ((y =? 129) && (z =? 159))
   || (x =? 227) && ((y =? 128) && (z =? 128))
   || (x =? 239) && ((y =? 187) && (z =? 191)))%N.

Fixpoint skip_white_space (s : string) : string :=
  match s with
  | String a s1 =>
      if is_white_space a then skip_white_space s1
      else
        match s1 with
        | String b s2 =>
            if is_white_space_2 a b then skip_white_space s2
            else
              match s2 with
              | String c s3 =>
                  if is_white_space_3 a b c then skip_white_space s3 else s
              | EmptyString => s
              end
        | EmptyString => s
        end
  | EmptyString => EmptyString
  end.

Definition digit_value (a : ascii) : option N :=
  let n := N_of_ascii a in
  if ((48 <=? n) && (n <=? 57))%N then Some (n - 48)%N else None.

(** The longest prefix of decimal digits, read most significant first.
    [acc] is [None] until a digit has been read. *)
Fixpoint read_digits (s : string) (acc : option N) : option N :=
  match s with
  | String a s' =>
      match digit_value a with
      | Some d => read_digits s' (Some (10 * default 0 acc + d)%N)
      | None => acc
      end
  | EmptyString => acc
  end.

(** [parseInt(input, 10)].  An [undefined] argument is converted to the
    string ["undefined"] first. *)
(** An optional sign in front of the digits: whether it is a minus, and
    what follows it. *)
Definition strip_sign (s : string) : bool * string :=
  match s with
  | String "-" r => (true, r)
  | String "+" r => (false, r)
  | _ => (false, s)
  end.

Definition parseInt10 (input : option string) : Number :=
  let s := skip_white_space (default "undefined" input) in
  let '(negative, rest) := strip_sign s in
  match read_digits rest None with
  | Some n => Int (if negative : bool then - Z.of_N n else Z.of_N n)
  | None => NaN
  end.

(** Lines 75-82 of [createRelayConnection]: the [(host, port)] the relay
    leg connects to. *)
Definition parseRelayHost (relayHost : string) : string * Number :=
  if includes ":" relayHost then
    let '(hostPart, others) := split ":" relayHost in
    (hostPart, parseInt10 (others !! 0%nat))
  else (relayHost, Int 8443).

(** *** Connection details and TLS options *)

(** [interface PostgresGatewayConnectionDetails].  The interface declares
    every field a [string]; the values that reach the service are built
    with optional chaining and can be [undefined], which is [None] here. *)
Record PostgresGatewayConnectionDetails := {
  relayHost : option string;
  relayClientCertificate : option string;
  relayClientPrivateKey : option string;
  relayServerCertificateChain : option string;
  gatewayClientCertificate : option string;
  gatewayClientPrivateKey : option string;
  gatewayServerCertificateChain : option string;
  sessionId : string
}.

(** The [tls.ConnectionOptions] of the relay leg. *)
Record RelayTlsConfig := {
  relay_host : string;
  relay_port : Number;
  relay_cert : string;
  relay_key : string;
  relay_ca : string;
  relay_rejectUnauthorized : bool;
  relay_minVersion : string;
  relay_servername : string
}.

(** The [tls.ConnectionOptions] of the gateway leg, with the relay socket
    it runs over. *)
Record GatewayTlsConfig := {
  gateway_cert : string;
  gateway_key : string;
  gateway_ca : string;
  gateway_rejectUnauthorized : bool;
  gateway_minVersion : string;
  gateway_maxVersion : string;
  gateway_ALPNProtocols : list string;
  gateway_servername : string;
  gateway_socket : nat
}.

(** What happens to the promise of [createRelayConnection] once
    [tls.connect] has been called: the first event settles it. *)
Inductive RelayOutcome :=
| RelayConnectThrows (e : Thrown)            (* [tls.connect] itself throws *)
| RelayAuthorized                            (* connected, [socket.authorized] *)
| RelayUnauthorized (authorizationError : string)
| RelaySocketError (message : string)        (* the ["error"] event *)
| RelayTimeout.

Inductive GatewayOutcome :=
| GatewayConnectThrows (e : Thrown)
| GatewayProtocol                            (* ["secureConnect"], [getProtocol()] truthy *)
| GatewayNoProtocol (authorizationError : string)
| GatewaySocketError (message : string)
| GatewayTimeout.

(** The world the service talks to during one call. *)
Record Env := {
  tls_connect_relay : RelayTlsConfig -> RelayOutcome;
  relay_destroy_error : option Thrown;
  tls_connect_gateway : GatewayTlsConfig -> GatewayOutcome;
  gateway_destroy_error : option Thrown;
  (** [server.listen(0, "127.0.0.1")]: the port assigned, or the
      ["error"] event of the listener. *)
  server_listen : Result Z;
  (** [connect], [query(sql)] and [end] of a [pg] client. *)
  pg_session : PgClientConfig -> string -> Result DriverResult;
  getPAMConnectionDetails : PAMConnectionRequest -> Result (option GatewayV2ConnectionDetails)
}.

(** A socket object comes into being; its reference is returned. *)
Definition new_socket (s : TLSSocket) : Eff State nat :=
  fun st => (Ok (length (sockets st)), set_sockets (fun l => (l ++ [s])%list) st).

Definition new_tunnel (t : PostgresTunnelConnection) : Eff State nat :=
  fun st => (Ok (length (tunnels st)), set_tunnels (fun l => (l ++ [t])%list) st).

Definition error (message : string) : Thrown := ErrorObj Error message.

(** Lines 73-99 of [createRelayConnection]: the options handed to
    [tls.connect], or what the promise is rejected with before any socket
    exists.  Reading [.includes] off an [undefined] [relayHost] throws a
    [TypeError] inside the promise executor. *)
Definition relayTlsConfig (gatewayDetails : PostgresGatewayConnectionDetails)
    : Result RelayTlsConfig :=
  match relayHost gatewayDetails with
  | None => Throw (ErrorObj TypeError "Cannot read properties of undefined (reading 'includes')")
  | Some relayHost =>
      let '(host, port) := parseRelayHost relayHost in
      if negb (truthy (relayClientCertificate gatewayDetails))
         || negb (truthy (relayClientPrivateKey gatewayDetails))
         || negb (truthy (relayServerCertificateChain gatewayDetails))
      then Throw (error "Missing relay TLS certificates or keys")
      else
        Ok {| relay_host := host;
              relay_port := port;
              relay_cert := default "" (relayClientCertificate gatewayDetails);
              relay_key := default "" (relayClientPrivateKey gatewayDetails);
              relay_ca := default "" (relayServerCertificateChain gatewayDetails);
              relay_rejectUnauthorized := true;
              relay_minVersion := "TLSv1.2";
              relay_servername := host |}
  end.

(** [private static async createRelayConnection(gatewayDetails)].  A socket
    that emitted ["error"] has been destroyed by the runtime; after a
    timeout or a failed authorization it is still open. *)
Definition createRelayConnection (env : Env)
    (gatewayDetails : PostgresGatewayConnectionDetails) : Eff State nat :=
  tlsConfig <- lift_result (relayTlsConfig gatewayDetails) ;;
  let opened := {| destroyed := false; destroy_error := relay_destroy_error env |} in
  match tls_connect_relay env tlsConfig with
  | RelayConnectThrows e => throw e
  | RelayAuthorized => new_socket opened
  | RelayUnauthorized authorizationError =>
      new_socket opened ;;;
      throw (error ("Relay TLS authorization failed: " +:+ authorizationError))
  | RelaySocketError message =>
      new_socket {| destroyed := true; destroy_error := relay_destroy_error env |} ;;;
      throw (error ("Relay TLS connection error: " +:+ message))
  | RelayTimeout =>
      new_socket opened ;;;
      throw (error "Relay connection timeout after 10 seconds")
  end.

(** Lines 124-145 of [createGatewayConnection]: the options of the inner
    handshake, which runs over [relaySocket]. *)
Definition gatewayTlsConfig (relaySocket : nat)
    (gatewayDetails : PostgresGatewayConnectionDetails) : Result GatewayTlsConfig :=
  if negb (truthy (gatewayClientCertificate gatewayDetails))
     || negb (truthy (gatewayClientPrivateKey gatewayDetails))
     || negb (truthy (gatewayServerCertificateChain gatewayDetails))
  then Throw (error "Missing gateway TLS certificates or keys")
  else
    Ok {| gateway_cert := default "" (gatewayClientCertificate gatewayDetails);
          gateway_key := default "" (gatewayClientPrivateKey gatewayDetails);
          gateway_ca := default "" (gatewayServerCertificateChain gatewayDetails);
          gateway_rejectUnauthorized := false;
          gateway_minVersion := "TLSv1.2";
          gateway_maxVersion := "TLSv1.3";
          gateway_ALPNProtocols := ["infisical-pam-proxy"];
          gateway_servername := "localhost";
          gateway_socket := relaySocket |}.

(** What the runtime does to the socket underneath when the stream
    wrapped around it is destroyed after an ["error"]: it is destroyed as
    well.  No user code runs, so nothing is thrown. *)
Definition destroy_underlying (sock : nat) : Eff State unit :=
  modify (set_sockets (fun l =>
    match l !! sock with
    | Some s => <[sock := {| destroyed := true; destroy_error := destroy_error s |}]> l
    | None => l
    end)).

(** [private static async createGatewayConnection(relaySocket, gatewayDetails)].
    The gateway socket is a TLS stream over [relaySocket]: when it emits
    ["error"] the runtime destroys it and the relay socket under it; after
    a timeout or a handshake without protocol both are still open. *)
Definition createGatewayConnection (env : Env) (relaySocket : nat)
    (gatewayDetails : PostgresGatewayConnectionDetails) : Eff State nat :=
  tlsConfig <- lift_result (gatewayTlsConfig relaySocket gatewayDetails) ;;
  let opened := {| destroyed := false; destroy_error := gateway_destroy_error env |} in
  match tls_connect_gateway env tlsConfig with
  | GatewayConnectThrows e => throw e
  | GatewayProtocol => new_socket opened
  | GatewayNoProtocol authorizationError =>
      new_socket opened ;;;
      throw (error ("Gateway TLS handshake failed: " +:+ authorizationError))
  | GatewaySocketError message =>
      new_socket {| destroyed := true; destroy_error := gateway_destroy_error env |} ;;;
      destroy_underlying relaySocket ;;;
      throw (error ("Gateway TLS connection error: " +:+ message))
  | GatewayTimeout =>
      new_socket opened ;;;
      throw (error "Gateway connection timeout after 10 seconds")
  end.

(** The result handed back by [executeQueryByType]: rows as arrays in field
    order, type identifiers as decimal strings, [rowCount || 0]. *)
Definition normalize (result : DriverResult) : QueryResult :=
  {| fields := map (fun f => (f.1, pretty f.2)) (driver_fields result);
     rows := map (fun row =>
                    map (fun field => default VUndefined (row !! field.1))
                        (driver_fields result))
                 (driver_rows result);
     rowCount := default 0%Z (driver_rowCount result);
     success := true |}.

(** [private static async executeQueryByType(gatewaySocket, credentials, sql)]:
    a loopback listener spliced to the gateway socket, and one [pg] client
    session through it.  The session is taken to settle: [pg_session]
    answers with a result or with what was thrown.  The client has no
    ["error"] listener and no statement timeout, so a session that never
    answers leaves the promise pending; such a call has no outcome here,
    and what is proved of a call is proved of a call that completes. *)
Definition executeQueryByType (env : Env) (gatewaySocket : nat)
    (credentials : PostgresSessionCredentials) (sql : string) : Eff State QueryResult :=
  localPort <- lift_result (server_listen env) ;;
  result <- lift_result
    (pg_session env
       {| pg_host := "127.0.0.1";
          pg_port := localPort;
          pg_database := database credentials;
          pg_user := username credentials;
          pg_password := password credentials;
          pg_ssl := None;
          pg_connectionTimeoutMillis := 10000 |}
       sql) ;;
  ret (normalize result).

(** Lines 51-56 of [executeQueryThroughTunnel]: the tunnel object is built
    and stored with [this.activeTunnels.set(sessionId, tunnel)]. *)
Definition registerTunnel (sessionId : string) (relaySocket gatewaySocket : nat)
    : Eff State unit :=
  tunnel <- new_tunnel {| relaySocket := relaySocket;
                          gatewaySocket := gatewaySocket;
                          isActive := true |} ;;
  modify (set_activeTunnels (fun m => <[sessionId := tunnel]> m)).

(** [async executeQueryThroughTunnel(sessionId, credentials, gatewayDetails, sql)],
    run from its first handshake to its [closeTunnel] with no step of
    another call in between.  The source awaits between
    [this.activeTunnels.set] and [closeTunnel], and [closeTunnel] takes the
    tunnel from the registry by session id: a second call for the same
    session id that overlaps this one can replace the entry, and is not
    described by this function. *)
Definition executeQueryThroughTunnel (env : Env) (sessionId : string)
    (credentials : PostgresSessionCredentials)
    (gatewayDetails : PostgresGatewayConnectionDetails) (sql : string)
    : Eff State QueryResult :=
  try_catch
    (relaySocket <- createRelayConnection env gatewayDetails ;;
     gatewaySocket <- createGatewayConnection env relaySocket gatewayDetails ;;
     registerTunnel sessionId relaySocket gatewaySocket ;;;
     result <- executeQueryByType env gatewaySocket credentials sql ;;
     closeTunnel sessionId ;;;
     ret result)
    (fun error =>
       closeTunnel sessionId ;;;
       throw (ErrorObj BadRequestError
                (message_or error "Failed to execute query through TCP tunnel"))).

(** The argument object of lines 263-274. *)
Definition connectionRequest (sessionId gatewayIdentityId : string) : PAMConnectionRequest :=
  {| req_sessionId := sessionId;
     req_gatewayId := None;
     req_gatewayIdentityId := Some gatewayIdentityId;
     req_resourceType := Postgres;
     req_host := "localhost";
     req_port := 8443;
     req_actor_id := "system";
     req_actor_type := USER;
     req_actor_name := "PAM TCP Gateway" |}.

(** [async getGatewayConnectionDetails(sessionId, gatewayIdentityId)] *)
Definition getGatewayConnectionDetails (env : Env) (sessionId gatewayIdentityId : string)
    : Eff State PostgresGatewayConnectionDetails :=
  connectionDetails <- lift_result
    (getPAMConnectionDetails env (connectionRequest sessionId gatewayIdentityId)) ;;
  match connectionDetails with
  | None => throw (ErrorObj BadRequestError "Failed to get gateway connection details")
  | Some connectionDetails =>
      let relayClientCertificate := opt_chain (relay connectionDetails) clientCertificate in
      let relayClientPrivateKey := opt_chain (relay connectionDetails) clientPrivateKey in
      let relayServerCertificateChain := opt_chain (relay connectionDetails) serverCertificateChain in
      let gatewayClientCertificate := opt_chain (gateway connectionDetails) clientCertificate in
      let gatewayClientPrivateKey := opt_chain (gateway connectionDetails) clientPrivateKey in
      let gatewayServerCertificateChain := opt_chain (gateway connectionDetails) serverCertificateChain in
      ret {| relayHost := details_relayHost connectionDetails;
             relayClientCertificate := relayClientCertificate;
             relayClientPrivateKey := relayClientPrivateKey;
             relayServerCertificateChain := relayServerCertificateChain;
             gatewayClientCertificate := gatewayClientCertificate;
             gatewayClientPrivateKey := gatewayClientPrivateKey;
             gatewayServerCertificateChain := gatewayServerCertificateChain;
             sessionId := sessionId |}
  end.

(** [getActiveTunnelCount()] *)
Definition getActiveTunnelCount (st : State) : nat := size (activeTunnels st).

(** A tunnel object after [tunnel.isActive = false]. *)
Definition inactive (tunnel : PostgresTunnelConnection) : PostgresTunnelConnection :=
  {| relaySocket := relaySocket tunnel;
     gatewaySocket := gatewaySocket tunnel;
     isActive := false |}.

(** From one store to a later one, every socket is still there, with the
    same behaviour of [destroy()], and destroyed if it was. *)
Definition sockets_kept (st st' : State) : Prop :=
  ∀ i s, sockets st !! i = Some s →
         ∃ s', sockets st' !! i = Some s'
               ∧ destroy_error s' = destroy_error s
               ∧ (destroyed s = true → destroyed s' = true).

(** Every tunnel object is still there, over the same two sockets. *)
Definition tunnels_kept (st st' : State) : Prop :=
  ∀ j tunnel, tunnels st !! j = Some tunnel →
              ∃ tunnel', tunnels st' !! j = Some tunnel'
                         ∧ relaySocket tunnel' = relaySocket tunnel
                         ∧ gatewaySocket tunnel' = gatewaySocket tunnel.

(** The keys of a [Map] come out in insertion order, which a [gmap] does not
    record: an iteration takes the order as a list [order] of the keys, each
    once. *)
Definition enumerates {A} (order : list string) (m : gmap string A) : Prop :=
  NoDup order ∧ ∀ k, k ∈ order ↔ is_Some (m !! k).

(** [async closeAllTunnels()].  [closeTunnel] has no [await] in it, so each
    call in the [map] runs to its end before the next one starts;
    [Promise.allSettled] then resolves whatever the outcomes were. *)
Definition closeAllTunnels (order : list string) : Eff State unit :=
  fun st => (Ok tt, foldl (fun st sessionId => (closeTunnel sessionId st).2) st order).

(** [getActiveTunnels()] *)
Definition getActiveTunnels (order : list string) (st : State) : list (string * bool) :=
  omap (fun sessionId =>
          match activeTunnels st !! sessionId with
          | Some t =>
              match tunnels st !! t with
              | Some tunnel => Some (sessionId, isActive tunnel)
              | None => None
              end
          | None => None
          end)
       order.

(** A call of one of the public methods that change the store, run to
    completion.  A chain of steps is a run in which the calls follow one
    another without overlapping. *)
Inductive step : State -> State -> Prop :=
| step_executeQueryThroughTunnel env sessionId credentials gatewayDetails sql st :
    step st (executeQueryThroughTunnel env sessionId credentials gatewayDetails sql st).2
| step_closeAllTunnels order st :
    enumerates order (activeTunnels st) ->
    step st (closeAllTunnels order st).2.

End TcpGateway.

(** ** The proxy service: the session pipeline *)
Module Proxy.

(** Modelled from the spec: the enum [PamSessionStatus] of
    [pam-session-enums], which is not among the sources:
    [status ∈ {Starting, Active, Ended, …}]. *)
Inductive PamSessionStatus := Starting | Active | Ended | OtherStatus (name : string).

Global Instance PamSessionStatus_eq_dec : EqDecision PamSessionStatus.
Proof. solve_decision. Defined.

(** The session row returned by [pamSessionDAL.findById].  [expiresAt] is
    a [Date] or [null]; a date is its time value in milliseconds. *)
Record Session := {
  session_id : string;
  status : PamSessionStatus;
  accountId : string;
  projectId : string;
  expiresAt : option Z
}.

Record Account := {
  account_id : string;
  resourceId : string
}.

Record Resource := {
  resource_id : string;
  gatewayId : option string
}.

Record OrgServiceActor := {
  actor_type : ActorType;
  actor_id : string;
  actor_orgId : string
}.

(** The collaborators injected into [PamPostgresProxyService], and the
    clock read by [new Date()]. *)
Record Env := {
  pamSessionDAL_findById : string -> Result (option Session);
  pamAccountDAL_findById : string -> Result (option Account);
  pamResourceDAL_findById : string -> Result (option Resource);
  (** the [credentials] field of what the account service resolves to *)
  pamAccountService_getSessionCredentials :
    string -> OrgServiceActor -> Result PostgresSessionCredentials;
  gatewayV2Service_getPAMConnectionDetails :
    PAMConnectionRequest -> Result (option GatewayV2ConnectionDetails);
  now : Z;
  postgresTcpGatewayService : TcpGateway.Env
}.

Definition State := TcpGateway.State.

(** The three errors [validateSession] constructs. *)
Definition session_not_found (sessionId : string) : Thrown :=
  ErrorObj NotFoundError ("Session with ID '" +:+ sessionId +:+ "' not found").
Definition session_ended : Thrown := ErrorObj BadRequestError "Session has ended".
Definition session_expired : Thrown := ErrorObj BadRequestError "Session has expired".

(** [private async validateSession(sessionId)].  A [Date] object is truthy
    whatever its value, so the test on [expiresAt] is the comparison of the
    two time values whenever [expiresAt] is not [null]. *)
Definition validateSession (env : Env) (sessionId : string) : Eff State Session :=
  sessionFromDb <- lift_result (pamSessionDAL_findById env sessionId) ;;
  match sessionFromDb with
  | None => throw (session_not_found sessionId)
  | Some sessionFromDb =>
      if decide (status sessionFromDb = Ended)
      then throw session_ended
      else
        match expiresAt sessionFromDb with
        | Some expiresAt =>
            if (expiresAt <=? now env)%Z
            then throw session_expired
            else ret sessionFromDb
        | None => ret sessionFromDb
        end
  end.

(** [private async getResourceForSession(session)] *)
Definition getResourceForSession (env : Env) (session : Session) : Eff State Resource :=
  account <- lift_result (pamAccountDAL_findById env (accountId session)) ;;
  match account with
  | None => throw (ErrorObj NotFoundError "Account not found")
  | Some account =>
      resource <- lift_result (pamResourceDAL_findById env (resourceId account)) ;;
      match resource with
      | None => throw (ErrorObj NotFoundError "Resource not found")
      | Some resource =>
          if negb (truthy (gatewayId resource))
          then throw (ErrorObj BadRequestError "Resource does not have a gateway configured")
          else ret resource
      end
  end.

(** [private async getSessionCredentials(sessionId, actor)] *)
Definition getSessionCredentials (env : Env) (sessionId : string) (actor : OrgServiceActor)
    : Eff State PostgresSessionCredentials :=
  lift_result (pamAccountService_getSessionCredentials env sessionId actor).

(** The argument object of lines 115-126. *)
Definition connectionRequest (sessionId gatewayId : string) : PAMConnectionRequest :=
  {| req_sessionId := sessionId;
     req_gatewayId := Some gatewayId;
     req_gatewayIdentityId := None;
     req_resourceType := Postgres;
     req_host := "localhost";
     req_port := 8443;
     req_actor_id := "system";
     req_actor_type := USER;
     req_actor_name := "PAM Gateway Proxy" |}.

(** [private async getGatewayConnectionDetails(sessionId, gatewayId)].  The
    value returned is an object or, as far as its type goes, [null]. *)
Definition getGatewayConnectionDetails (env : Env) (sessionId gatewayId : string)
    : Eff State (option GatewayV2ConnectionDetails) :=
  try_catch
    (connectionDetails <- lift_result
       (gatewayV2Service_getPAMConnectionDetails env
          (connectionRequest sessionId gatewayId)) ;;
     match connectionDetails with
     | None =>
         throw (ErrorObj BadRequestError "No connection details returned from gateway service")
     | Some _ => ret connectionDetails
     end)
    (fun _ =>
       throw (ErrorObj BadRequestError "Failed to get gateway connection details for TCP tunnel")).

(** Lines 161-170: the flat [tunnelDetails] built from the nested
    [gatewayDetails]. *)
Definition tunnelDetails (gatewayDetails : GatewayV2ConnectionDetails) (sessionId : string)
    : TcpGateway.PostgresGatewayConnectionDetails :=
  {| TcpGateway.relayHost := details_relayHost gatewayDetails;
     TcpGateway.relayClientCertificate := opt_chain (relay gatewayDetails) clientCertificate;
     TcpGateway.relayClientPrivateKey := opt_chain (relay gatewayDetails) clientPrivateKey;
     TcpGateway.relayServerCertificateChain :=
       opt_chain (relay gatewayDetails) serverCertificateChain;
     TcpGateway.gatewayClientCertificate := opt_chain (gateway gatewayDetails) clientCertificate;
     TcpGateway.gatewayClientPrivateKey := opt_chain (gateway gatewayDetails) clientPrivateKey;
     TcpGateway.gatewayServerCertificateChain :=
       opt_chain (gateway gatewayDetails) serverCertificateChain;
     TcpGateway.sessionId := sessionId |}.

(** [private async executeQueryThroughTunnel(credentials, gatewayDetails,
    sql, params, sessionId)]; [params] is received and not used. *)
Definition executeQueryThroughTunnel (env : Env)
    (credentials : PostgresSessionCredentials)
    (gatewayDetails : GatewayV2ConnectionDetails)
    (sql : string) (params : list JsValue) (sessionId : string) : Eff State QueryResult :=
  TcpGateway.executeQueryThroughTunnel (postgresTcpGatewayService env)
    sessionId credentials (tunnelDetails gatewayDetails sessionId) sql.

(** [async executeQuery({sessionId, sql, params, actor})] *)
Definition executeQuery (env : Env) (sessionId sql : string) (queryParams : list JsValue)
    (actor : OrgServiceActor) : Eff State QueryResult :=
  try_catch
    (session <- validateSession env sessionId ;;
     resource <- getResourceForSession env session ;;
     credentials <- getSessionCredentials env sessionId actor ;;
     gatewayConnectionDetails <-
       getGatewayConnectionDetails env sessionId (default "" (gatewayId resource)) ;;
     match gatewayConnectionDetails with
     | None => throw (ErrorObj BadRequestError "Failed to get gateway connection details")
     | Some gatewayConnectionDetails =>
         result <- executeQueryThroughTunnel env credentials gatewayConnectionDetails
                     sql queryParams sessionId ;;
         ret result
     end)
    (fun error =>
       throw (ErrorObj BadRequestError
                (message_or error "Failed to execute query via gateway"))).

End Proxy.

(** ** The direct connection pool *)
Module Pool.

(** ["postgres" | "mysql"] *)
Inductive ResourceType := postgres | mysql.

Global Instance ResourceType_eq_dec : EqDecision ResourceType.
Proof. solve_decision. Defined.

(** A driver connection object ([PgClient | mysql.Connection]): which
    driver made it, whether [end()] has completed on it, and the statements
    sent over it, oldest first. *)
Record DatabaseConnection := {
  driver_kind : ResourceType;
  ended : bool;
  statements : list string
}.

(** [interface PooledConnection]; [connection] is a reference into the heap
    of driver connections, dates are time values in milliseconds. *)
Record PooledConnection := {
  sessionId : string;
  connection : nat;
  resourceType : ResourceType;
  createdAt : Z;
  lastUsed : Z
}.

(** The heap of driver connections and the field
    [connections = new Map<string, PooledConnection>()]. *)
Record State := {
  driver : list DatabaseConnection;
  connections : gmap string PooledConnection
}.

Global Instance DatabaseConnection_eq_dec : EqDecision DatabaseConnection.
Proof. solve_decision. Defined.
Global Instance PooledConnection_eq_dec : EqDecision PooledConnection.
Proof. solve_decision. Defined.
Global Instance PoolState_eq_dec : EqDecision State.
Proof. solve_decision. Defined.

Definition set_driver (f : list DatabaseConnection -> list DatabaseConnection)
    (st : State) : State :=
  {| driver := f (driver st); connections := connections st |}.

Definition set_connections
    (f : gmap string PooledConnection -> gmap string PooledConnection) (st : State) : State :=
  {| driver := driver st; connections := f (connections st) |}.

Definition set_lastUsed (t : Z) (p : PooledConnection) : PooledConnection :=
  {| sessionId := sessionId p;
     connection := connection p;
     resourceType := resourceType p;
     createdAt := createdAt p;
     lastUsed := t |}.

Definition initial : State := {| driver := []; connections := ∅ |}.

(** The options of [mysql.createConnection({...})]; [ssl] is [undefined]
    when SSL is off. *)
Record MySQLConnectionOptions := {
  my_host : string;
  my_port : Z;
  my_database : string;
  my_user : string;
  my_password : string;
  my_ssl : option (option string * bool);
  my_connectTimeout : Z
}.

(** What the drivers answer: to a connection attempt, to [end()] on a
    connection, and to the probe statement on a connection. *)
Record Env := {
  pg_connect : PgClientConfig -> Result unit;
  mysql_createConnection : MySQLConnectionOptions -> Result unit;
  connection_end : nat -> Result unit;
  connection_query : nat -> string -> Result unit
}.

Definition new_connection (c : DatabaseConnection) : Eff State nat :=
  fun st => (Ok (length (driver st)), set_driver (fun l => (l ++ [c])%list) st).

(** [ssl: credentials.sslEnabled ? {ca, rejectUnauthorized} : off] *)
Definition ssl_options (credentials : PostgresSessionCredentials)
    : option (option string * bool) :=
  if sslEnabled credentials
  then Some (sslCertificate credentials, sslRejectUnauthorized credentials)
  else None.

(** [private static async createPostgresConnection(credentials)] *)
Definition createPostgresConnection (env : Env) (credentials : PostgresSessionCredentials)
    : Eff State nat :=
  lift_result
    (pg_connect env
       {| pg_host := host credentials;
          pg_port := port credentials;
          pg_database := database credentials;
          pg_user := username credentials;
          pg_password := password credentials;
          pg_ssl := ssl_options credentials;
          pg_connectionTimeoutMillis := 10000 |}) ;;;
  new_connection {| driver_kind := postgres; ended := false; statements := [] |}.

(** [private static async createMySQLConnection(credentials)] *)
Definition createMySQLConnection (env : Env) (credentials : PostgresSessionCredentials)
    : Eff State nat :=
  lift_result
    (mysql_createConnection env
       {| my_host := host credentials;
          my_port := port credentials;
          my_database := database credentials;
          my_user := username credentials;
          my_password := password credentials;
          my_ssl := ssl_options credentials;
          my_connectTimeout := 10000 |}) ;;;
  new_connection {| driver_kind := mysql; ended := false; statements := [] |}.

(** [existing.lastUsed = new Date()] on the entry of [sessionId]. *)
Definition touch (sessionId : string) (date : Z) : Eff State unit :=
  modify (set_connections (fun m =>
    match m !! sessionId with
    | Some existing => <[sessionId := set_lastUsed date existing]> m
    | None => m
    end)).

(** [async getConnection(sessionId)]; [date] is the value of [new Date()]. *)
Definition getConnection (sessionId : string) (date : Z) : Eff State nat :=
  existing <- gets (fun st => connections st !! sessionId) ;;
  match existing with
  | Some existing =>
      touch sessionId date ;;;
      ret (connection existing)
  | None =>
      throw (ErrorObj Error "No connection found for session. Call createConnection first.")
  end.

(** [async createConnection(sessionId, credentials, resourceType)];
    [date0] and [date1] are the values of the first and of the second
    [new Date()] the call evaluates. *)
Definition createConnection (env : Env) (sessionId : string)
    (credentials : PostgresSessionCredentials) (resourceType : ResourceType)
    (date0 date1 : Z) : Eff State nat :=
  existing <- gets (fun st => connections st !! sessionId) ;;
  match existing with
  | Some existing =>
      touch sessionId date0 ;;;
      ret (connection existing)
  | None =>
      connection <-
        (match resourceType with
         | postgres => createPostgresConnection env credentials
         | mysql => createMySQLConnection env credentials
         end) ;;
      let pooledConnection :=
        {| sessionId := sessionId;
           connection := connection;
           resourceType := resourceType;
           createdAt := date0;
           lastUsed := date1 |} in
      modify (set_connections (fun m => <[sessionId := pooledConnection]> m)) ;;;
      ret connection
  end.

(** [async releaseConnection(sessionId)] *)
Definition releaseConnection (sessionId : string) (date : Z) : Eff State unit :=
  touch sessionId date.

(** [await connection.end()] *)
Definition end_connection (env : Env) (c : nat) : Eff State unit :=
  lift_result (connection_end env c) ;;;
  modify (set_driver (fun l =>
    match l !! c with
    | Some d =>
        <[c := {| driver_kind := driver_kind d; ended := true; statements := statements d |}]> l
    | None => l
    end)).

(** [async closeConnection(sessionId)] *)
Definition closeConnection (env : Env) (sessionId : string) : Eff State unit :=
  pooled <- gets (fun st => connections st !! sessionId) ;;
  match pooled with
  | Some pooled =>
      try_finally
        (match resourceType pooled with
         | postgres => end_connection env (connection pooled)
         | mysql => end_connection env (connection pooled)
         end)
        (modify (set_connections (delete sessionId)))
  | None => ret tt
  end.

(** [await connection.query(sql)] / [connection.execute(sql)]: the
    statement goes out, then the driver answers. *)
Definition send (env : Env) (c : nat) (sql : string) : Eff State unit :=
  modify (set_driver (fun l =>
    match l !! c with
    | Some d =>
        <[c := {| driver_kind := driver_kind d;
                  ended := ended d;
                  statements := (statements d ++ [sql])%list |}]> l
    | None => l
    end)) ;;;
  lift_result (connection_query env c sql).

(** [async healthCheck(sessionId)] *)
Definition healthCheck (env : Env) (sessionId : string) : Eff State bool :=
  pooled <- gets (fun st => connections st !! sessionId) ;;
  match pooled with
  | None => ret false
  | Some pooled =>
      try_catch
        (match resourceType pooled with
         | postgres => send env (connection pooled) "SELECT 1"
         | mysql => send env (connection pooled) "SELECT 1"
         end ;;;
         ret true)
        (fun _ =>
           closeConnection env sessionId ;;;
           ret false)
  end.

(** [getConnectionCount()] *)
Definition getConnectionCount (st : State) : nat := size (connections st).

(** Every statement sent so far, over any connection. *)
Definition statements_sent (st : State) : list string :=
  concat (map statements (driver st)).

(** The constructor defaults: [maxIdleTimeMs] and [healthCheckIntervalMs]. *)
Definition default_maxIdleTimeMs : Z := 5 * 60 * 1000.
Definition default_healthCheckIntervalMs : Z := 30 * 1000.

(** [idleTime > this.maxIdleTimeMs] for an entry, at time [now]. *)
Definition idle (maxIdleTimeMs now : Z) (pooled : PooledConnection) : bool :=
  (maxIdleTimeMs <? now - lastUsed pooled)%Z.

(** The list [toDelete] of [cleanupIdleConnections]; [order] is the
    iteration order of the map's entries. *)
Definition toDelete (maxIdleTimeMs now : Z) (order : list string) (st : State)
    : list string :=
  List.filter (fun sessionId =>
                 match connections st !! sessionId with
                 | Some pooled => idle maxIdleTimeMs now pooled
                 | None => false
                 end)
              order.

(** The store after [closeConnection] has been called for each of
    [sessionIds] and all the calls have settled.  The calls overlap at their
    [await]; each one reads and deletes its own entry only and ends its own
    connection, so the store they leave is the one they leave when run one
    after the other.  A call that throws does not stop the others. *)
Definition closeEach (env : Env) (sessionIds : list string) (st : State) : State :=
  foldl (fun st sessionId => (closeConnection env sessionId st).2) st sessionIds.

(** The store after [private async cleanupIdleConnections()], run at time
    [now].  Its promise is dropped by the timer callback that calls it. *)
Definition cleanupIdleConnections (env : Env) (maxIdleTimeMs now : Z)
    (order : list string) (st : State) : State :=
  closeEach env (toDelete maxIdleTimeMs now order st) st.

(** [async closeAllConnections()]: [Promise.allSettled] never rejects, and
    the map is cleared at the end. *)
Definition closeAllConnections (env : Env) (order : list string) : Eff State unit :=
  fun st => (Ok tt, set_connections (fun _ => ∅) (closeEach env order st)).

(** What the entries of the map have in common in a store the methods
    produce: an entry is filed under its own [sessionId], its connection
    exists, has not been ended and was made by the driver its
    [resourceType] names, and no other entry holds the same connection. *)
Definition consistent (st : State) : Prop :=
  ∀ sessionId pooled,
    connections st !! sessionId = Some pooled →
    Pool.sessionId pooled = sessionId
    ∧ (∃ c, driver st !! connection pooled = Some c
            ∧ ended c = false
            ∧ driver_kind c = resourceType pooled)
    ∧ ∀ other pooled',
        connections st !! other = Some pooled' →
        connection pooled' = connection pooled →
        other = sessionId.

(** From one store to a later one, every driver connection is still
    there, and ended if it was. *)
Definition driver_kept (st st' : State) : Prop :=
  ∀ i c, driver st !! i = Some c →
         ∃ c', driver st' !! i = Some c' ∧ (ended c = true → ended c' = true).

(** A call of one of the methods that change the store. *)
Inductive step : State -> State -> Prop :=
| step_getConnection sessionId date st :
    step st (getConnection sessionId date st).2
| step_createConnection env sessionId credentials resourceType date0 date1 st :
    step st (createConnection env sessionId credentials resourceType date0 date1 st).2
| step_releaseConnection sessionId date st :
    step st (releaseConnection sessionId date st).2
| step_closeConnection env sessionId st :
    step st (closeConnection env sessionId st).2
| step_healthCheck env sessionId st :
    step st (healthCheck env sessionId st).2
| step_cleanupIdleConnections env maxIdleTimeMs now order st :
    TcpGateway.enumerates order (connections st) ->
    step st (cleanupIdleConnections env maxIdleTimeMs now order st)
| step_closeAllConnections env order st :
    TcpGateway.enumerates order (connections st) ->
    step st (closeAllConnections env order st).2.

End Pool.

(** * Concrete inputs

    Stores, records and environments at which the properties below are
    evaluated. *)
Section tunnel_inputs.
Import TcpGateway.

Definition example_open : TLSSocket := {| destroyed := false; destroy_error := None |}.

(** A registry in which session ["session-1"] has a tunnel whose two
    sockets are open. *)
Definition example_registered : State :=
  {| sockets := [example_open; example_open];
     tunnels := [{| relaySocket := 0; gatewaySocket := 1; isActive := true |}];
     activeTunnels := {["session-1" := 0%nat]} |}.

(** The flat details of the test suite. *)
Definition example_details : PostgresGatewayConnectionDetails :=
  {| relayHost := Some "relay.example.com:8443";
     relayClientCertificate := Some "relay-cert-data";
     relayClientPrivateKey := Some "relay-key-data";
     relayServerCertificateChain := Some "relay-chain-data";
     gatewayClientCertificate := Some "gateway-cert-data";
     gatewayClientPrivateKey := Some "gateway-key-data";
     gatewayServerCertificateChain := Some "gateway-chain-data";
     sessionId := "session-1" |}.

(** The same registry when [destroy()] on the gateway socket throws. *)
Definition example_registered_stuck : State :=
  {| sockets := [example_open;
                 {| destroyed := false;
                    destroy_error := Some (ErrorObj Error "destroy failed") |}];
     tunnels := [{| relaySocket := 0; gatewaySocket := 1; isActive := true |}];
     activeTunnels := {["session-1" := 0%nat]} |}.

End tunnel_inputs.

Section pipeline_inputs.
Import Proxy.

Definition example_actor : OrgServiceActor :=
  {| actor_type := USER; actor_id := "actor-1"; actor_orgId := "org-1" |}.

Definition example_session (expiresAt : option Z) : Session :=
  {| session_id := "session-1";
     status := Active;
     accountId := "acc-1";
     projectId := "proj-1";
     expiresAt := expiresAt |}.

Definition example_account : Account := {| account_id := "acc-1"; resourceId := "res-1" |}.

Definition example_resource : Resource :=
  {| resource_id := "res-1"; gatewayId := Some "gateway-123" |}.

Definition example_credentials : PostgresSessionCredentials :=
  {| host := "localhost";
     port := 5432;
     database := "testdb";
     username := "user";
     password := "pass";
     sslEnabled := false;
     sslRejectUnauthorized := true;
     sslCertificate := None |}.

Definition example_bundle : GatewayV2ConnectionDetails :=
  {| details_relayHost := Some "relay.example.com:8443";
     relay := Some {| clientCertificate := Some "relay-cert-data";
                      clientPrivateKey := Some "relay-key-data";
                      serverCertificateChain := Some "relay-chain-data" |};
     gateway := Some {| clientCertificate := Some "gateway-cert-data";
                        clientPrivateKey := Some "gateway-key-data";
                        serverCertificateChain := Some "gateway-chain-data" |} |}.

(** Both legs missing. *)
Definition example_bundle_partial : GatewayV2ConnectionDetails :=
  {| details_relayHost := Some "relay.example.com"; relay := None; gateway := None |}.

(** The relay leg complete, the gateway leg without its client
    certificate. *)
Definition example_bundle_no_gateway_certificate : GatewayV2ConnectionDetails :=
  {| details_relayHost := Some "relay.example.com:8443";
     relay := Some {| clientCertificate := Some "relay-cert-data";
                      clientPrivateKey := Some "relay-key-data";
                      serverCertificateChain := Some "relay-chain-data" |};
     gateway := Some {| clientCertificate := None;
                        clientPrivateKey := Some "gateway-key-data";
                        serverCertificateChain := Some "gateway-chain-data" |} |}.

(** The answer of the database to [SELECT 1]. *)
Definition example_result : DriverResult :=
  {| driver_fields := [("?column?", 23%Z)];
     driver_rows := [{["?column?" := VNumber 1]}];
     driver_rowCount := Some 1%Z |}.

(** A network in which both handshakes succeed and the query is answered. *)
Definition example_network : TcpGateway.Env :=
  {| TcpGateway.tls_connect_relay := λ _, TcpGateway.RelayAuthorized;
     TcpGateway.relay_destroy_error := None;
     TcpGateway.tls_connect_gateway := λ _, TcpGateway.GatewayProtocol;
     TcpGateway.gateway_destroy_error := None;
     TcpGateway.server_listen := Ok 49152%Z;
     TcpGateway.pg_session := λ _ _, Ok example_result;
     TcpGateway.getPAMConnectionDetails := λ _, Ok (Some example_bundle) |}.

(** Collaborators that know one session, one account and one resource; the
    session row and the gateway bundle they answer with, and the time, are
    left open. *)
Definition example_env (session : option Session)
    (bundle : option GatewayV2ConnectionDetails) (now : Z) : Env :=
  {| pamSessionDAL_findById := λ _, Ok session;
     pamAccountDAL_findById := λ _, Ok (Some example_account);
     pamResourceDAL_findById := λ _, Ok (Some example_resource);
     pamAccountService_getSessionCredentials := λ _ _, Ok example_credentials;
     gatewayV2Service_getPAMConnectionDetails := λ _, Ok bundle;
     now := now;
     postgresTcpGatewayService := example_network |}.

(** The session of the test suite once it has ended. *)
Definition example_session_ended : Session :=
  {| session_id := "session-1";
     status := Ended;
     accountId := "acc-1";
     projectId := "proj-1";
     expiresAt := Some 1800000000000%Z |}.

(** The same collaborators with a resource whose [gatewayId] is the empty
    string. *)
Definition example_env_no_gateway : Env :=
  {| pamSessionDAL_findById := λ _, Ok (Some (example_session None));
     pamAccountDAL_findById := λ _, Ok (Some example_account);
     pamResourceDAL_findById :=
       λ _, Ok (Some {| resource_id := "res-1"; gatewayId := Some "" |});
     pamAccountService_getSessionCredentials := λ _ _, Ok example_credentials;
     gatewayV2Service_getPAMConnectionDetails := λ _, Ok (Some example_bundle);
     now := 0;
     postgresTcpGatewayService := example_network |}.

(** The same collaborators with a credential service that throws a value
    that is not an [Error]. *)
Definition example_env_vault_down : Env :=
  {| pamSessionDAL_findById := λ _, Ok (Some (example_session None));
     pamAccountDAL_findById := λ _, Ok (Some example_account);
     pamResourceDAL_findById := λ _, Ok (Some example_resource);
     pamAccountService_getSessionCredentials := λ _ _, Throw (NonError "vault sealed");
     gatewayV2Service_getPAMConnectionDetails := λ _, Ok (Some example_bundle);
     now := 0;
     postgresTcpGatewayService := example_network |}.

End pipeline_inputs.

Section pool_inputs.
Import Pool.

(** Drivers that connect and close without error, and on which the probe
    statement fails. *)
Definition example_drivers : Env :=
  {| pg_connect := λ _, Ok tt;
     mysql_createConnection := λ _, Ok tt;
     connection_end := λ _, Ok tt;
     connection_query := λ _ _, Throw (ErrorObj Error "Connection terminated unexpectedly") |}.

(** A pool holding one PostgreSQL connection, for session ["session-1"]. *)
Definition example_pool : State :=
  {| driver := [{| driver_kind := postgres; ended := false; statements := [] |}];
     connections :=
       {["session-1" := {| sessionId := "session-1";
                           connection := 0%nat;
                           resourceType := postgres;
                           createdAt := 1700000000000%Z;
                           lastUsed := 1700000000001%Z |}]} |}.

(** Drivers on which the probe statement and [end()] both fail. *)
Definition example_drivers_stuck : Env :=
  {| pg_connect := λ _, Ok tt;
     mysql_createConnection := λ _, Ok tt;
     connection_end := λ _, Throw (ErrorObj Error "Connection terminated unexpectedly");
     connection_query := λ _ _, Throw (ErrorObj Error "Connection terminated unexpectedly") |}.

(** Drivers that cannot connect. *)
Definition example_drivers_down : Env :=
  {| pg_connect := λ _, Throw (ErrorObj Error "connect ECONNREFUSED");
     mysql_createConnection := λ _, Throw (ErrorObj Error "connect ECONNREFUSED");
     connection_end := λ _, Ok tt;
     connection_query := λ _ _, Ok tt |}.

(** The error of [getConnection]. *)
Definition no_connection : Thrown :=
  ErrorObj Error "No connection found for session. Call createConnection first.".

End pool_inputs.

(** * Properties *)

Ltac eff_unfold :=
  unfold bind, ret, throw, gets, modify, try_catch, try_finally, lift_result in *.

(** ** The tunnel registry *)
Section registry.
Import TcpGateway.

Lemma destroy_activeTunnels sock st :
  activeTunnels (destroy sock st).2 = activeTunnels st
  ∧ tunnels (destroy sock st).2 = tunnels st.
Proof.
  unfold destroy.
  destruct (sockets st !! sock) as [s|]; [|done].
  by destruct (destroy_error s).
Qed.

Lemma destroy_if_open_activeTunnels sock st :
  activeTunnels (destroy_if_open sock st).2 = activeTunnels st
  ∧ tunnels (destroy_if_open sock st).2 = tunnels st.
Proof.
  unfold destroy_if_open.
  destruct (sockets st !! sock) as [s|]; [|done].
  destruct (destroyed s); [done|apply destroy_activeTunnels].
Qed.

Lemma destroy_streams_ok t st :
  (destroy_streams t st).1 = Ok tt
  ∧ activeTunnels (destroy_streams t st).2 = activeTunnels st
  ∧ tunnels (destroy_streams t st).2 = tunnels st.
Proof.
  unfold destroy_streams. eff_unfold.
  destruct (tunnels st !! t) as [tun|]; [|done].
  pose proof (destroy_if_open_activeTunnels (gatewaySocket tun) st) as [Hg Hg'].
  destruct (destroy_if_open (gatewaySocket tun) st) as [[[]|e] st1]; simpl in *; [|done].
  pose proof (destroy_if_open_activeTunnels (relaySocket tun) st1) as [Hr Hr'].
  destruct (destroy_if_open (relaySocket tun) st1) as [[[]|e] st2]; simpl in *;
    by rewrite Hr, Hr'.
Qed.

(** [closeTunnel] never throws, and what it does to the registry is
    [delete]. *)
Lemma closeTunnel_registry sessionId st :
  (closeTunnel sessionId st).1 = Ok tt
  ∧ activeTunnels (closeTunnel sessionId st).2 = delete sessionId (activeTunnels st).
Proof.
  unfold closeTunnel, mark_inactive. eff_unfold.
  destruct (activeTunnels st !! sessionId) as [t|] eqn:Ht; simpl.
  - match goal with |- context [destroy_streams t ?s] =>
      pose proof (destroy_streams_ok t s) as (Hok & Hreg & _);
      destruct (destroy_streams t s) as [r st1]
    end.
    simpl in *. subst r. simpl. by rewrite Hreg.
  - split; [done|]. symmetry. by apply delete_id.
Qed.

Lemma closeTunnel_absent sessionId st :
  activeTunnels st !! sessionId = None → closeTunnel sessionId st = (Ok tt, st).
Proof. intros H. unfold closeTunnel. eff_unfold. by rewrite H. Qed.

(** C8.  [closeTunnel] is idempotent: two calls in a row leave the same
    outcome and the same state (registry, tunnel objects and sockets) as one
    call, and a call for a session id that has no entry returns normally
    and changes nothing. *)
Theorem closeTunnel_idempotent sessionId st :
  (closeTunnel sessionId ;;; closeTunnel sessionId) st = closeTunnel sessionId st
  ∧ (activeTunnels st !! sessionId = None → closeTunnel sessionId st = (Ok tt, st)).
Proof.
  split; [|apply closeTunnel_absent].
  pose proof (closeTunnel_registry sessionId st) as [Hok Hreg].
  unfold bind.
  destruct (closeTunnel sessionId st) as [r st1]; simpl in *. subst r.
  apply closeTunnel_absent. rewrite Hreg. apply lookup_delete_eq.
Qed.

Lemma closeTunnel_idempotent_witness :
  (closeTunnel "session-1" ;;; closeTunnel "session-1") example_registered
    = closeTunnel "session-1" example_registered
  ∧ closeTunnel "session-2" example_registered = (Ok tt, example_registered).
Proof.
  split.
  - apply (proj1 (closeTunnel_idempotent "session-1" example_registered)).
  - apply (proj2 (closeTunnel_idempotent "session-2" example_registered)).
    vm_compute. reflexivity.
Defined.

(** What one call does to a registered tunnel with two open sockets. *)
Example closeTunnel_example :
  closeTunnel "session-1" example_registered
  = (Ok tt,
     {| sockets := [{| destroyed := true; destroy_error := None |};
                    {| destroyed := true; destroy_error := None |}];
        tunnels := [{| relaySocket := 0; gatewaySocket := 1; isActive := false |}];
        activeTunnels := ∅ |}).
Proof. vm_compute. reflexivity. Qed.

(** *** Registering over an existing entry *)

Lemma registerTunnel_eq sessionId r g st :
  registerTunnel sessionId r g st
  = (Ok tt,
     {| sockets := sockets st;
        tunnels := tunnels st ++ [{| relaySocket := r; gatewaySocket := g; isActive := true |}];
        activeTunnels := <[sessionId := length (tunnels st)]> (activeTunnels st) |}).
Proof. reflexivity. Qed.

(** C3, as stated, fails: registering a tunnel for a session id that
    already has one does not destroy the sockets of the earlier tunnel. *)
Lemma registerTunnel_prior_not_torn_down :
  ¬ (∀ st sessionId r g t tun s,
       activeTunnels st !! sessionId = Some t →
       tunnels st !! t = Some tun →
       sockets (registerTunnel sessionId r g st).2 !! relaySocket tun = Some s →
       destroyed s = true).
Proof.
  intros H.
  specialize (H example_registered "session-1" 2 3 0
                {| relaySocket := 0; gatewaySocket := 1; isActive := true |}
                example_open).
  discriminate H; vm_compute; reflexivity.
Qed.

(** C3, amended.  The registry is a map, so a session id has at most one
    entry: registering stores the new tunnel object under the session id,
    replacing the entry that was there (the number of entries does not grow
    then), and leaves every other entry, every socket and every earlier
    tunnel object as it was; nothing is destroyed. *)
Theorem registerTunnel_replaces sessionId r g st :
  let st' := (registerTunnel sessionId r g st).2 in
  (registerTunnel sessionId r g st).1 = Ok tt
  ∧ (∃ t, activeTunnels st' !! sessionId = Some t
          ∧ tunnels st' !! t
            = Some {| relaySocket := r; gatewaySocket := g; isActive := true |})
  ∧ (∀ other, other ≠ sessionId → activeTunnels st' !! other = activeTunnels st !! other)
  ∧ (is_Some (activeTunnels st !! sessionId) →
     getActiveTunnelCount st' = getActiveTunnelCount st)
  ∧ sockets st' = sockets st
  ∧ (∀ t tun, tunnels st !! t = Some tun → tunnels st' !! t = Some tun).
Proof.
  rewrite registerTunnel_eq. simpl.
  split; [done|]. split; [|split; [|split; [|split; [done|]]]].
  - exists (length (tunnels st)). split; [apply lookup_insert_eq|].
    rewrite lookup_app_r by lia. by rewrite Nat.sub_diag.
  - intros other Hne. by apply lookup_insert_ne.
  - intros [t Ht]. unfold getActiveTunnelCount. simpl.
    rewrite <-(insert_delete_id (activeTunnels st) sessionId t Ht) at 2.
    rewrite <-insert_delete_eq.
    rewrite !map_size_insert_None by apply lookup_delete_eq. done.
  - intros t tun Ht. by apply lookup_app_l_Some.
Qed.

(** The whole call on a registry that already holds a tunnel for the
    session id: the two sockets of the earlier tunnel (0 and 1) stay open
    and its object stays active; the sockets of the new tunnel (2 and 3)
    are the ones destroyed at the end. *)
Example executeQueryThroughTunnel_over_registered :
  (executeQueryThroughTunnel example_network "session-1" example_credentials
     example_details "SELECT 1" example_registered).2
  = {| sockets := [example_open; example_open;
                   {| destroyed := true; destroy_error := None |};
                   {| destroyed := true; destroy_error := None |}];
       tunnels := [{| relaySocket := 0; gatewaySocket := 1; isActive := true |};
                   {| relaySocket := 2; gatewaySocket := 3; isActive := false |}];
       activeTunnels := ∅ |}.
Proof. vm_compute. reflexivity. Qed.

Lemma registerTunnel_replaces_witness :
  getActiveTunnelCount (registerTunnel "session-1" 2 3 example_registered).2
  = getActiveTunnelCount example_registered.
Proof.
  apply (registerTunnel_replaces "session-1" 2 3 example_registered).
  exists 0%nat. vm_compute. reflexivity.
Defined.

End registry.

(** ** The relay leg: where it connects to *)
Section relay_host.
Import TcpGateway.

Lemma includes_app c s1 s2 :
  includes c (s1 +:+ s2) = includes c s1 || includes c s2.
Proof.
  induction s1 as [|a s1 IH]; simpl; [done|].
  by destruct (Ascii.eqb a c).
Qed.

Lemma split_without c s : includes c s = false → split c s = (s, []).
Proof.
  induction s as [|a s IH]; simpl; [done|].
  destruct (Ascii.eqb a c); [done|].
  intros H. by rewrite (IH H).
Qed.

Lemma split_at_first c h s :
  includes c h = false →
  split c (h +:+ String c s) = (h, (split c s).1 :: (split c s).2).
Proof.
  induction h as [|a h IH]; simpl.
  - intros _. rewrite Ascii.eqb_refl. by destruct (split c s).
  - destruct (Ascii.eqb a c); [done|].
    intros H. by rewrite (IH H).
Qed.

Lemma digit_value_char r : (r < 10)%N → digit_value (pretty_N_char r) = Some r.
Proof.
  intros H.
  assert (r = 0 ∨ r = 1 ∨ r = 2 ∨ r = 3 ∨ r = 4 ∨ r = 5 ∨ r = 6 ∨ r = 7 ∨ r = 8 ∨ r = 9)%N
    as Hr by lia.
  repeat (destruct Hr as [->|Hr]; [reflexivity|]). by subst.
Qed.

Lemma digit_not_sign a d :
  digit_value a = Some d →
  is_white_space a = false ∧ Ascii.eqb a ":" = false
  ∧ ∀ s, strip_sign (String a s) = (false, String a s).
Proof.
  destruct a as [[] [] [] [] [] [] [] []]; vm_compute; intros H; try discriminate H; done.
Qed.

(** An ASCII character that is no white space stops the skipping: the
    code points of two and three bytes start with a byte above 127. *)
Lemma skip_white_space_ascii a s :
  (N_of_ascii a < 128)%N →
  is_white_space a = false →
  skip_white_space (String a s) = String a s.
Proof.
  intros Ha Hws. simpl. rewrite Hws.
  assert (is_white_space_2 a = fun _ => false) as H2.
  { destruct a as [[] [] [] [] [] [] [] []];
      first [reflexivity | vm_compute in Ha; discriminate Ha]. }
  assert (is_white_space_3 a = fun _ _ => false) as H3.
  { destruct a as [[] [] [] [] [] [] [] []];
      first [reflexivity | vm_compute in Ha; discriminate Ha]. }
  destruct s as [|b [|c s3]]; [done| |]; rewrite H2; [done|]. by rewrite H3.
Qed.

Lemma skip_white_space_digit a d s :
  digit_value a = Some d → skip_white_space (String a s) = String a s.
Proof.
  intros Hd. apply skip_white_space_ascii.
  - destruct a as [[] [] [] [] [] [] [] []]; vm_compute in Hd;
      first [discriminate Hd | reflexivity].
  - by destruct (digit_not_sign _ _ Hd) as (? & _).
Qed.

(** Reading back what [pretty_N_go] wrote. *)
Lemma pretty_N_go_read x :
  (0 < x)%N →
  ∃ k, ∀ s,
    (∀ acc, read_digits (pretty_N_go x s) acc
            = read_digits s (Some (default 0 acc * k + x)%N))
    ∧ includes ":" (pretty_N_go x s) = includes ":" s
    ∧ ∃ a d rest, pretty_N_go x s = String a rest ∧ digit_value a = Some d.
Proof.
  induction (N.lt_wf_0 x) as [x _ IH]. intros Hx.
  assert (x `mod` 10 < 10)%N as Hr by (apply N.mod_lt; lia).
  pose proof (digit_value_char _ Hr) as Hd.
  pose proof (digit_not_sign _ _ Hd) as (_ & Hcolon & _).
  pose proof (N.div_mod x 10 ltac:(lia)) as Hdm.
  destruct (decide (x `div` 10 = 0)%N) as [Hq|Hq].
  - exists 10%N. intros s. rewrite pretty_N_go_step, Hq, pretty_N_go_0 by done.
    simpl. rewrite Hd, Hcolon. split; [|split; [done|eauto]].
    intros acc. do 2 f_equal. lia.
  - destruct (IH (x `div` 10)%N) as [k Hk]; [apply N.div_lt; lia|lia|].
    exists (10 * k)%N. intros s. rewrite pretty_N_go_step by done.
    destruct (Hk (String (pretty_N_char (x `mod` 10)) s)) as (Hread & Hinc & Hhead).
    split; [|split; [|done]].
    + intros acc. rewrite Hread. simpl. rewrite Hd. do 2 f_equal. lia.
    + rewrite Hinc. simpl. by rewrite Hcolon.
Qed.

Lemma parseInt10_pretty (p : N) : parseInt10 (Some (pretty p)) = Int (Z.of_N p).
Proof.
  unfold pretty, pretty_N. case_decide as Hp; [by subst|].
  destruct (pretty_N_go_read p ltac:(lia)) as [k Hk].
  destruct (Hk "") as (Hread & _ & a & d & rest & Hs & Hd).
  destruct (digit_not_sign _ _ Hd) as (Hws & _ & Hsign).
  unfold parseInt10. simpl default.
  assert (skip_white_space (pretty_N_go p "") = pretty_N_go p "") as ->.
  { rewrite Hs. apply (skip_white_space_digit _ _ _ Hd). }
  rewrite Hs, Hsign, <-Hs, Hread. simpl. do 2 f_equal. 
Qed.

Lemma includes_pretty (p : N) : includes ":" (pretty p) = false.
Proof.
  unfold pretty, pretty_N. case_decide as Hp; [done|].
  destruct (pretty_N_go_read p ltac:(lia)) as [k Hk].
  by destruct (Hk "") as (_ & -> & _).
Qed.

(** C7.  The relay leg connects to host [relayHost] and port 8443 when
    [relayHost] holds no colon, and to host [h] and port [p] when
    [relayHost] is [h], a colon, and the decimal numeral of [p] (with [h]
    free of colons and [p] in the range where a number is exact).  These
    are the [host] and [port] of the options handed to [tls.connect], which
    exist once the three relay certificate fields are present, and the SNI
    [servername] of these options is that host. *)
Theorem relayHost_target rh :
  (includes ":" rh = false → parseRelayHost rh = (rh, Int 8443))
  ∧ (∀ h (p : N),
       includes ":" h = false →
       (Z.of_N p ≤ max_exact_integer)%Z →
       rh = h +:+ ":" +:+ pretty p →
       parseRelayHost rh = (h, Int (Z.of_N p)))
  ∧ (∀ gatewayDetails,
       relayHost gatewayDetails = Some rh →
       truthy (relayClientCertificate gatewayDetails) = true →
       truthy (relayClientPrivateKey gatewayDetails) = true →
       truthy (relayServerCertificateChain gatewayDetails) = true →
       ∃ tlsConfig, relayTlsConfig gatewayDetails = Ok tlsConfig
         ∧ (relay_host tlsConfig, relay_port tlsConfig) = parseRelayHost rh
         ∧ relay_servername tlsConfig = (parseRelayHost rh).1).
Proof.
  split; [|split].
  - intros Hno. unfold parseRelayHost. by rewrite Hno.
  - intros h p Hh _ ->. unfold parseRelayHost.
    rewrite includes_app. simpl. rewrite orb_true_r.
    change (h +:+ ":" +:+ pretty p) with (h +:+ String ":" (pretty p)).
    rewrite (split_at_first ":" h (pretty p) Hh).
    rewrite (split_without ":" (pretty p) (includes_pretty p)). simpl.
    by rewrite parseInt10_pretty.
  - intros gatewayDetails Hrh Hc Hk Hca.
    unfold relayTlsConfig. rewrite Hrh, Hc, Hk, Hca. simpl.
    destruct (parseRelayHost rh) as [host port]. eauto.
Qed.

Lemma relayHost_target_witness :
  parseRelayHost "relay.example.com" = ("relay.example.com", Int 8443)
  ∧ parseRelayHost "relay.example.com:8443" = ("relay.example.com", Int 8443)
  ∧ ∃ tlsConfig, relayTlsConfig example_details = Ok tlsConfig
      ∧ (relay_host tlsConfig, relay_port tlsConfig) = parseRelayHost "relay.example.com:8443"
      ∧ relay_servername tlsConfig = (parseRelayHost "relay.example.com:8443").1.
Proof.
  split; [|split].
  - apply (proj1 (relayHost_target "relay.example.com")). reflexivity.
  - apply (proj1 (proj2 (relayHost_target "relay.example.com:8443"))
             "relay.example.com" 8443%N).
    + reflexivity.
    + vm_compute. discriminate.
    + vm_compute. reflexivity.
  - apply (proj2 (proj2 (relayHost_target "relay.example.com:8443")) example_details);
      reflexivity.
Defined.

(** Ports written otherwise: more colons, nothing after the colon, a name. *)
Example parseRelayHost_examples :
  parseRelayHost "relay.example.com:443" = ("relay.example.com", Int 443)
  ∧ parseRelayHost "a:1:2" = ("a", Int 1)
  ∧ parseRelayHost "h:" = ("h", NaN)
  ∧ parseRelayHost "h:https" = ("h", NaN)
  ∧ parseRelayHost ":80" = ("", Int 80).
Proof. vm_compute. done. Qed.

End relay_host.

(** ** Teardown of the tunnel *)
Section cleanup.
Import TcpGateway.

(** Whichever way [executeQueryThroughTunnel] ends, the last thing it did to
    the store was a [closeTunnel sessionId]. *)
Lemma executeQueryThroughTunnel_closes env sessionId credentials gatewayDetails sql st :
  ∃ st0,
    (executeQueryThroughTunnel env sessionId credentials gatewayDetails sql st).2
    = (closeTunnel sessionId st0).2.
Proof.
  unfold executeQueryThroughTunnel, try_catch.
  match goal with |- context [let (_, _) := ?body st in _] =>
    destruct (body st) as [[result|e] st1] eqn:Hbody
  end.
  - unfold bind at 1 in Hbody.
    destruct (createRelayConnection env gatewayDetails st) as [[relay|?] s1]; [|done].
    unfold bind at 1 in Hbody.
    destruct (createGatewayConnection env relay gatewayDetails s1) as [[gw|?] s2]; [|done].
    unfold bind at 1 in Hbody. rewrite registerTunnel_eq in Hbody.
    unfold bind at 1 in Hbody.
    match type of Hbody with context [executeQueryByType env gw credentials sql ?s] =>
      destruct (executeQueryByType env gw credentials sql s) as [[r|?] s3]; [|done]
    end.
    unfold bind, ret in Hbody.
    pose proof (closeTunnel_registry sessionId s3) as [Hok _].
    destruct (closeTunnel sessionId s3) as [[[]|?] s4] eqn:Hclose; [|done].
    simplify_eq. exists s3. by rewrite Hclose.
  - exists st1. unfold bind, throw.
    pose proof (closeTunnel_registry sessionId st1) as [Hok _].
    by destruct (closeTunnel sessionId st1) as [[[]|?] s4].
Qed.

Lemma executeQueryThroughTunnel_unregisters env sessionId credentials gatewayDetails sql st :
  activeTunnels (executeQueryThroughTunnel env sessionId credentials gatewayDetails sql st).2
    !! sessionId = None.
Proof.
  destruct (executeQueryThroughTunnel_closes env sessionId credentials gatewayDetails sql st)
    as [st0 ->].
  destruct (closeTunnel_registry sessionId st0) as [_ ->]. apply lookup_delete_eq.
Qed.

(** Every failure of [executeQueryThroughTunnel] is a [BadRequestError]. *)
Lemma executeQueryThroughTunnel_throws env sessionId credentials gatewayDetails sql st e :
  (executeQueryThroughTunnel env sessionId credentials gatewayDetails sql st).1 = Throw e →
  ∃ message, e = ErrorObj BadRequestError message.
Proof.
  unfold executeQueryThroughTunnel, try_catch.
  match goal with |- context [let (_, _) := ?body st in _] =>
    destruct (body st) as [[result|e0] st1] eqn:Hbody
  end; [done|].
  unfold bind, throw.
  pose proof (closeTunnel_registry sessionId st1) as [Hok _].
  destruct (closeTunnel sessionId st1) as [[[]|?] s4]; [|done].
  simpl. intros [= <-]. eauto.
Qed.

(** The relay leg is up and a gateway certificate field is missing: the
    call fails, and the relay socket it opened is left open. *)
Lemma gateway_certificate_missing_leaves_relay_open
    env sessionId credentials gatewayDetails sql st tlsConfig :
  relayTlsConfig gatewayDetails = Ok tlsConfig →
  tls_connect_relay env tlsConfig = RelayAuthorized →
  truthy (gatewayClientCertificate gatewayDetails)
    && truthy (gatewayClientPrivateKey gatewayDetails)
    && truthy (gatewayServerCertificateChain gatewayDetails) = false →
  activeTunnels st !! sessionId = None →
  executeQueryThroughTunnel env sessionId credentials gatewayDetails sql st
  = (Throw (ErrorObj BadRequestError "Missing gateway TLS certificates or keys"),
     set_sockets
       (λ l, l ++ [{| destroyed := false; destroy_error := relay_destroy_error env |}]) st).
Proof.
  intros Hcfg Hrelay Hmissing Hfree.
  unfold executeQueryThroughTunnel, try_catch, createRelayConnection, createGatewayConnection,
    gatewayTlsConfig.
  unfold bind at 1. unfold bind at 1. unfold lift_result at 1. rewrite Hcfg, Hrelay.
  unfold new_socket at 1. unfold bind at 1. unfold bind at 1. unfold lift_result.
  assert (negb (truthy (gatewayClientCertificate gatewayDetails))
          || negb (truthy (gatewayClientPrivateKey gatewayDetails))
          || negb (truthy (gatewayServerCertificateChain gatewayDetails)) = true) as ->.
  { by destruct (truthy _), (truthy _), (truthy _). }
  unfold bind, throw. rewrite closeTunnel_absent by done. done.
Qed.

(** C1, at the failing input: a usable session, the relay handshake
    succeeds, and the gateway leg of the bundle has no client certificate.
    The call fails with the message of the missing certificates, the
    registry has no entry, and the one socket the call opened, the relay
    socket, is still open: [closeTunnel] in the [catch] block finds nothing
    registered yet and destroys nothing. *)
Theorem executeQuery_missing_gateway_certificate_leaves_relay_open :
  Proxy.executeQuery
    (example_env (Some (example_session None)) (Some example_bundle_no_gateway_certificate) 0)
    "session-1" "SELECT 1" [] example_actor initial
  = (Throw (ErrorObj BadRequestError "Missing gateway TLS certificates or keys"),
     {| sockets := [{| destroyed := false; destroy_error := None |}];
        tunnels := [];
        activeTunnels := ∅ |}).
Proof. vm_compute. reflexivity. Qed.

(** The same session when the bundle is complete: the result comes back,
    both sockets are destroyed and the registry is empty. *)
Example executeQuery_happy_path :
  Proxy.executeQuery
    (example_env (Some (example_session None)) (Some example_bundle) 0)
    "session-1" "SELECT 1" [] example_actor initial
  = (Ok {| fields := [("?column?", "23")];
           rows := [[VNumber 1]];
           rowCount := 1;
           success := true |},
     {| sockets := [{| destroyed := true; destroy_error := None |};
                    {| destroyed := true; destroy_error := None |}];
        tunnels := [{| relaySocket := 0; gatewaySocket := 1; isActive := false |}];
        activeTunnels := ∅ |}).
Proof. vm_compute. reflexivity. Qed.

End cleanup.

(** ** The session pipeline *)
Section pipeline.
Import Proxy.


(** What [validateSession] does with a row that was found. *)
Lemma validateSession_found env sessionId st session :
  pamSessionDAL_findById env sessionId = Ok (Some session) →
  validateSession env sessionId st
  = (if decide (status session = Ended) then Throw session_ended
     else match expiresAt session with
          | Some expiresAt =>
              if (expiresAt <=? now env)%Z then Throw session_expired else Ok session
          | None => Ok session
          end,
     st).
Proof.
  intros H. unfold validateSession. eff_unfold. rewrite H.
  destruct (decide (status session = Ended)); [done|].
  destruct (expiresAt session) as [e|]; [|done].
  by destruct (e <=? now env)%Z.
Qed.

Lemma validateSession_absent env sessionId st :
  pamSessionDAL_findById env sessionId = Ok None →
  validateSession env sessionId st
  = (Throw (session_not_found sessionId), st).
Proof. intros H. unfold validateSession. eff_unfold. by rewrite H. Qed.

(** C5.  For a session row that is found and whose status is not [Ended]:
    validation fails with "Session has expired" exactly when [expiresAt] is
    present and not after the current time, so a session expiring at this
    very millisecond is expired; and validation returns the row exactly when
    [expiresAt] is absent or strictly in the future. *)
Theorem validateSession_expiry env sessionId st session :
  pamSessionDAL_findById env sessionId = Ok (Some session) →
  status session ≠ Ended →
  (validateSession env sessionId st = (Throw session_expired, st)
     ↔ ∃ expiresAt, Proxy.expiresAt session = Some expiresAt ∧ (expiresAt ≤ now env)%Z)
  ∧ (validateSession env sessionId st = (Ok session, st)
     ↔ match expiresAt session with
       | Some expiresAt => (now env < expiresAt)%Z
       | None => True
       end).
Proof.
  intros Hfound Hstatus. rewrite (validateSession_found _ _ _ _ Hfound).
  destruct (decide (status session = Ended)); [done|].
  destruct (expiresAt session) as [e|].
  - destruct (Z.leb_spec e (now env)) as [Hle|Hlt].
    + split; split; try done; [eauto|lia].
    + split; split; try done. intros (e' & [= <-] & ?). lia.
  - split; split; try done. by intros (? & ? & _).
Qed.

Lemma validateSession_expiry_witness :
  validateSession (example_env (Some (example_session (Some 1700000000000%Z))) None 1700000000000)
    "session-1" TcpGateway.initial
  = (Throw session_expired, TcpGateway.initial).
Proof.
  apply (proj1 (validateSession_expiry
                  (example_env (Some (example_session (Some 1700000000000%Z))) None 1700000000000)
                  "session-1" TcpGateway.initial
                  (example_session (Some 1700000000000%Z)) eq_refl ltac:(discriminate))).
  exists 1700000000000%Z. split; [reflexivity|]. simpl. lia.
Defined.


Lemma getResourceForSession_state env session st :
  (getResourceForSession env session st).2 = st.
Proof.
  unfold getResourceForSession. eff_unfold.
  destruct (pamAccountDAL_findById env (accountId session)) as [[account|]|]; try done.
  destruct (pamResourceDAL_findById env (resourceId account)) as [[resource|]|]; try done.
  by destruct (negb (truthy (gatewayId resource))).
Qed.

(** The inner [getGatewayConnectionDetails] never returns [null]: whatever
    goes wrong in it, an absent bundle included, leaves as one and the same
    [BadRequestError]. *)
Lemma getGatewayConnectionDetails_cases env sessionId gatewayId st :
  getGatewayConnectionDetails env sessionId gatewayId st
  = match gatewayV2Service_getPAMConnectionDetails env (connectionRequest sessionId gatewayId) with
    | Ok (Some connectionDetails) => (Ok (Some connectionDetails), st)
    | _ => (Throw (ErrorObj BadRequestError
                     "Failed to get gateway connection details for TCP tunnel"), st)
    end.
Proof.
  unfold getGatewayConnectionDetails. eff_unfold.
  by destruct (gatewayV2Service_getPAMConnectionDetails env _) as [[?|]|].
Qed.

(** The body of the [try] block of [executeQuery] determines its outcome:
    a result passes, anything thrown is rethrown as a [BadRequestError]
    with the same message. *)
Lemma executeQuery_throws env sessionId sql queryParams actor st e :
  (executeQuery env sessionId sql queryParams actor st).1 = Throw e →
  ∃ message, e = ErrorObj BadRequestError message.
Proof.
  unfold executeQuery, try_catch, throw.
  match goal with |- context [let (_, _) := ?body st in _] =>
    destruct (body st) as [[result|e0] st1]
  end; simpl; [done|].
  intros [= <-]. eauto.
Qed.

Lemma executeQuery_session_absent env sessionId sql queryParams actor st :
  pamSessionDAL_findById env sessionId = Ok None →
  executeQuery env sessionId sql queryParams actor st
  = (Throw (ErrorObj BadRequestError ("Session with ID '" +:+ sessionId +:+ "' not found")),
     st).
Proof.
  intros H. unfold executeQuery, try_catch. unfold bind at 1.
  by rewrite (validateSession_absent _ _ _ H).
Qed.

(** C2, as stated, fails: with the session row absent, [executeQuery] does
    not fail with a [NotFoundError]. *)
Lemma executeQuery_session_absent_not_NotFound :
  ¬ ∃ message,
      (executeQuery (example_env None (Some example_bundle) 0)
         "session-1" "SELECT 1" [] example_actor TcpGateway.initial).1
      = Throw (ErrorObj NotFoundError message).
Proof. intros [message H]. vm_compute in H. discriminate H. Qed.

(** C2, amended.  Nothing passes through [executeQuery] unwrapped: whatever
    it fails with is a [BadRequestError].  What a resolver step
    ([validateSession], [getResourceForSession]) throws is rethrown as a
    [BadRequestError] with the same message when it is an [Error], and with
    the message "Failed to execute query via gateway" when it is not.  So
    the resolver [validateSession] fails with a [NotFoundError] when the
    session row is absent, and [executeQuery] then fails with a
    [BadRequestError] whose message is "Session with ID '<sessionId>' not
    found"; likewise a missing account or resource surfaces as a
    [BadRequestError] with the message "Account not found" or "Resource not
    found". *)
Theorem executeQuery_wraps_resolver_errors env sessionId sql queryParams actor st :
  (∀ e, (executeQuery env sessionId sql queryParams actor st).1 = Throw e →
        ∃ message, e = ErrorObj BadRequestError message)
  ∧ (pamSessionDAL_findById env sessionId = Ok None →
     validateSession env sessionId st = (Throw (session_not_found sessionId), st)
     ∧ executeQuery env sessionId sql queryParams actor st
       = (Throw (ErrorObj BadRequestError
                   ("Session with ID '" +:+ sessionId +:+ "' not found")), st))
  ∧ (∀ session,
       validateSession env sessionId st = (Ok session, st) →
       pamAccountDAL_findById env (accountId session) = Ok None →
       executeQuery env sessionId sql queryParams actor st
       = (Throw (ErrorObj BadRequestError "Account not found"), st))
  ∧ (∀ session account,
       validateSession env sessionId st = (Ok session, st) →
       pamAccountDAL_findById env (accountId session) = Ok (Some account) →
       pamResourceDAL_findById env (resourceId account) = Ok None →
       executeQuery env sessionId sql queryParams actor st
       = (Throw (ErrorObj BadRequestError "Resource not found"), st))
  ∧ (∀ e,
       validateSession env sessionId st = (Throw e, st) →
       executeQuery env sessionId sql queryParams actor st
       = (Throw (ErrorObj BadRequestError
                   (message_or e "Failed to execute query via gateway")), st))
  ∧ (∀ session e,
       validateSession env sessionId st = (Ok session, st) →
       getResourceForSession env session st = (Throw e, st) →
       executeQuery env sessionId sql queryParams actor st
       = (Throw (ErrorObj BadRequestError
                   (message_or e "Failed to execute query via gateway")), st)).
Proof.
  split; [intros e; apply executeQuery_throws|].
  split; [|split; [|split; [|split]]].
  - intros H. split; [by apply validateSession_absent|by apply executeQuery_session_absent].
  - intros session Hs Ha. unfold executeQuery, try_catch. unfold bind at 1. rewrite Hs.
    unfold bind at 1. unfold getResourceForSession. eff_unfold. by rewrite Ha.
  - intros session account Hs Ha Hr. unfold executeQuery, try_catch. unfold bind at 1.
    rewrite Hs. unfold bind at 1. unfold getResourceForSession. eff_unfold.
    by rewrite Ha, Hr.
  - intros e Hs. unfold executeQuery, try_catch. unfold bind at 1. by rewrite Hs.
  - intros session e Hs Hr. unfold executeQuery, try_catch. unfold bind at 1.
    rewrite Hs. unfold bind at 1. by rewrite Hr.
Qed.

Lemma executeQuery_wraps_resolver_errors_witness :
  executeQuery (example_env None (Some example_bundle) 0)
    "session-1" "SELECT 1" [] example_actor TcpGateway.initial
  = (Throw (ErrorObj BadRequestError "Session with ID 'session-1' not found"),
     TcpGateway.initial)
  ∧ executeQuery (example_env None (Some example_bundle) 0)
      "session-1" "SELECT 1" [] example_actor TcpGateway.initial
    = (Throw (ErrorObj BadRequestError
                (message_or (session_not_found "session-1")
                   "Failed to execute query via gateway")),
       TcpGateway.initial).
Proof.
  destruct (executeQuery_wraps_resolver_errors (example_env None (Some example_bundle) 0)
              "session-1" "SELECT 1" [] example_actor TcpGateway.initial)
    as (_ & Habsent & _ & _ & Hvalidate & _).
  split.
  - exact (proj2 (Habsent eq_refl)).
  - exact (Hvalidate (session_not_found "session-1") eq_refl).
Defined.

(** C4, as stated, fails: when the gateway service answers [null] for a
    usable session, the message is not "Failed to get gateway connection
    details". *)
Lemma executeQuery_no_connection_details_message :
  (executeQuery (example_env (Some (example_session None)) None 0)
     "session-1" "SELECT 1" [] example_actor TcpGateway.initial).1
  ≠ Throw (ErrorObj BadRequestError "Failed to get gateway connection details").
Proof. vm_compute. discriminate. Qed.

(** C4, amended.  When session, resource and credentials resolve and the
    gateway service answers with no bundle, [executeQuery] fails with a
    [BadRequestError] whose message is "Failed to get gateway connection
    details for TCP tunnel", and the store is untouched. *)
Theorem executeQuery_no_connection_details
    env sessionId sql queryParams actor st session resource credentials :
  validateSession env sessionId st = (Ok session, st) →
  getResourceForSession env session st = (Ok resource, st) →
  getSessionCredentials env sessionId actor st = (Ok credentials, st) →
  gatewayV2Service_getPAMConnectionDetails env
    (connectionRequest sessionId (default "" (gatewayId resource))) = Ok None →
  executeQuery env sessionId sql queryParams actor st
  = (Throw (ErrorObj BadRequestError
              "Failed to get gateway connection details for TCP tunnel"), st).
Proof.
  intros Hs Hr Hc Hg. unfold executeQuery, try_catch.
  unfold bind at 1. rewrite Hs. unfold bind at 1. rewrite Hr.
  unfold bind at 1. rewrite Hc. unfold bind at 1.
  by rewrite getGatewayConnectionDetails_cases, Hg.
Qed.

Lemma executeQuery_no_connection_details_witness :
  executeQuery (example_env (Some (example_session None)) None 0)
    "session-1" "SELECT 1" [] example_actor TcpGateway.initial
  = (Throw (ErrorObj BadRequestError
              "Failed to get gateway connection details for TCP tunnel"),
     TcpGateway.initial).
Proof.
  apply (executeQuery_no_connection_details
           (example_env (Some (example_session None)) None 0)
           "session-1" "SELECT 1" [] example_actor TcpGateway.initial
           (example_session None) example_resource example_credentials);
    reflexivity.
Defined.

(** The resolver steps leave the store alone, so a call either stops before
    the tunnel service is reached or ends with the session id unregistered. *)
Lemma executeQuery_unregisters env sessionId sql queryParams actor st :
  TcpGateway.activeTunnels st !! sessionId = None →
  TcpGateway.activeTunnels (executeQuery env sessionId sql queryParams actor st).2
    !! sessionId = None.
Proof.
  intros Hfree. unfold executeQuery, try_catch, throw.
  match goal with |- context [let (_, _) := ?body st in _] =>
    assert (TcpGateway.activeTunnels (body st).2 !! sessionId = None) as Hbody;
    [|by destruct (body st) as [[?|?] ?]]
  end.
  unfold bind at 1.
  assert ((validateSession env sessionId st).2 = st) as Hv.
  { unfold validateSession. eff_unfold.
    destruct (pamSessionDAL_findById env sessionId) as [[s|]|]; try done.
    destruct (decide (status s = Ended)); [done|].
    destruct (expiresAt s) as [e|]; [|done]. by destruct (e <=? now env)%Z. }
  destruct (validateSession env sessionId st) as [[session|?] st1]; simpl in Hv; subst st1;
    [|done].
  unfold bind at 1.
  pose proof (getResourceForSession_state env session st) as Hr.
  destruct (getResourceForSession env session st) as [[resource|?] st1]; simpl in Hr;
    subst st1; [|done].
  unfold bind at 1, getSessionCredentials, lift_result.
  destruct (pamAccountService_getSessionCredentials env sessionId actor) as [credentials|?];
    [|done].
  unfold bind at 1. rewrite getGatewayConnectionDetails_cases.
  destruct (gatewayV2Service_getPAMConnectionDetails env _) as [[details|]|]; try done.
  unfold bind, ret, executeQueryThroughTunnel.
  pose proof (executeQueryThroughTunnel_unregisters (postgresTcpGatewayService env)
                sessionId credentials (tunnelDetails details sessionId) sql st) as Hu.
  by destruct (TcpGateway.executeQueryThroughTunnel _ _ _ _ _ st) as [[?|?] ?].
Qed.

End pipeline.

(** ** The nested bundle and the flat details *)
Section bundle.
Import TcpGateway.

(** C6.  The flat details built from a nested bundle are a projection of
    it: [relayHost] is the bundle's, each of the six certificate fields is
    the field of the same name of its leg read through optional chaining,
    and [sessionId] is the session id.  A leg that is missing gives three
    absent fields, a leg that is there gives its own three fields, absent
    where they are absent; no value is put in their place.  The TCP gateway
    service builds the same record from the same bundle. *)
Theorem tunnelDetails_projection (gatewayDetails : GatewayV2ConnectionDetails) session :
  let flat := Proxy.tunnelDetails gatewayDetails session in
  relayHost flat = details_relayHost gatewayDetails
  ∧ relayClientCertificate flat = opt_chain (relay gatewayDetails) clientCertificate
  ∧ relayClientPrivateKey flat = opt_chain (relay gatewayDetails) clientPrivateKey
  ∧ relayServerCertificateChain flat = opt_chain (relay gatewayDetails) serverCertificateChain
  ∧ gatewayClientCertificate flat = opt_chain (gateway gatewayDetails) clientCertificate
  ∧ gatewayClientPrivateKey flat = opt_chain (gateway gatewayDetails) clientPrivateKey
  ∧ gatewayServerCertificateChain flat
    = opt_chain (gateway gatewayDetails) serverCertificateChain
  ∧ sessionId flat = session
  ∧ (relay gatewayDetails = None →
     relayClientCertificate flat = None
     ∧ relayClientPrivateKey flat = None
     ∧ relayServerCertificateChain flat = None)
  ∧ (gateway gatewayDetails = None →
     gatewayClientCertificate flat = None
     ∧ gatewayClientPrivateKey flat = None
     ∧ gatewayServerCertificateChain flat = None)
  ∧ (∀ leg, relay gatewayDetails = Some leg →
     relayClientCertificate flat = clientCertificate leg
     ∧ relayClientPrivateKey flat = clientPrivateKey leg
     ∧ relayServerCertificateChain flat = serverCertificateChain leg)
  ∧ (∀ leg, gateway gatewayDetails = Some leg →
     gatewayClientCertificate flat = clientCertificate leg
     ∧ gatewayClientPrivateKey flat = clientPrivateKey leg
     ∧ gatewayServerCertificateChain flat = serverCertificateChain leg)
  ∧ (∀ env gatewayIdentityId st,
       getPAMConnectionDetails env (connectionRequest session gatewayIdentityId)
       = Ok (Some gatewayDetails) →
       getGatewayConnectionDetails env session gatewayIdentityId st = (Ok flat, st)).
Proof.
  simpl. repeat (split; [reflexivity|]).
  split; [by intros ->|]. split; [by intros ->|].
  split; [by intros leg ->|]. split; [by intros leg ->|].
  intros env gatewayIdentityId st H.
  unfold getGatewayConnectionDetails. eff_unfold. by rewrite H.
Qed.

Lemma tunnelDetails_projection_witness :
  relayClientCertificate (Proxy.tunnelDetails example_bundle_partial "session-1") = None
  ∧ relayClientPrivateKey (Proxy.tunnelDetails example_bundle_partial "session-1") = None
  ∧ relayServerCertificateChain (Proxy.tunnelDetails example_bundle_partial "session-1") = None.
Proof.
  apply (tunnelDetails_projection example_bundle_partial "session-1"). reflexivity.
Defined.

(** The transformation on the complete bundle of the test suite. *)
Example tunnelDetails_example :
  Proxy.tunnelDetails example_bundle "session-1" = example_details.
Proof. reflexivity. Qed.

End bundle.

(** ** The direct connection pool *)
Section pool.
Import Pool.

(** With an entry present, [createConnection] and [getConnection] do the
    same thing: refresh [lastUsed] and return the stored connection. *)
Lemma createConnection_existing env session credentials kind date0 date1 st pooled :
  connections st !! session = Some pooled →
  createConnection env session credentials kind date0 date1 st
  = (Ok (connection pooled),
     set_connections (λ m, <[session := set_lastUsed date0 pooled]> m) st).
Proof.
  intros H. unfold createConnection, touch, set_connections. eff_unfold.
  rewrite H. simpl. by rewrite H.
Qed.

Lemma getConnection_existing session date st pooled :
  connections st !! session = Some pooled →
  getConnection session date st
  = (Ok (connection pooled),
     set_connections (λ m, <[session := set_lastUsed date pooled]> m) st).
Proof.
  intros H. unfold getConnection, touch, set_connections. eff_unfold.
  rewrite H. simpl. by rewrite H.
Qed.

Lemma createConnection_entry env session credentials kind date0 date1 st C st1 :
  createConnection env session credentials kind date0 date1 st = (Ok C, st1) →
  ∃ pooled, connections st1 !! session = Some pooled ∧ connection pooled = C.
Proof.
  destruct (connections st !! session) as [existing|] eqn:Hex.
  - rewrite (createConnection_existing _ _ _ _ _ _ _ _ Hex).
    intros [= <- <-]. eexists. split; [apply lookup_insert_eq|done].
  - unfold createConnection. eff_unfold. rewrite Hex.
    unfold createPostgresConnection, createMySQLConnection, new_connection. eff_unfold.
    destruct kind.
    + destruct (pg_connect env _); [|done].
      intros [= <- <-]. eexists. split; [apply lookup_insert_eq|done].
    + destruct (mysql_createConnection env _); [|done].
      intros [= <- <-]. eexists. split; [apply lookup_insert_eq|done].
Qed.

Lemma size_insert_present `{Countable K} {A} (m : gmap K A) k x y :
  m !! k = Some x → size (<[k := y]> m) = size m.
Proof.
  intros Hk. rewrite <-(insert_delete_id m k x Hk) at 2.
  rewrite <-insert_delete_eq.
  by rewrite !map_size_insert_None by apply lookup_delete_eq.
Qed.

(** C9.  Once [createConnection] has returned a connection [C] for a
    session id, the pool has an entry for it holding [C]; [getConnection]
    returns [C]; and another [createConnection] for that session id, with
    any credentials, kind and drivers, returns [C] too, opens no driver
    connection, and changes nothing but [lastUsed] of that entry, so the
    number of entries stays the same. *)
Theorem createConnection_then_get env session credentials kind date0 date1 st C st1 :
  createConnection env session credentials kind date0 date1 st = (Ok C, st1) →
  ∃ pooled,
    connections st1 !! session = Some pooled
    ∧ connection pooled = C
    ∧ (∀ date,
         getConnection session date st1
         = (Ok C, set_connections (λ m, <[session := set_lastUsed date pooled]> m) st1))
    ∧ (∀ env' credentials' kind' date0' date1',
         let again := createConnection env' session credentials' kind' date0' date1' st1 in
         again = (Ok C, set_connections (λ m, <[session := set_lastUsed date0' pooled]> m) st1)
         ∧ driver again.2 = driver st1
         ∧ getConnectionCount again.2 = getConnectionCount st1
         ∧ (∀ other, other ≠ session →
                     connections again.2 !! other = connections st1 !! other)).
Proof.
  intros Hcreate.
  destruct (createConnection_entry _ _ _ _ _ _ _ _ _ Hcreate) as (pooled & Hentry & <-).
  exists pooled. split; [done|]. split; [done|]. split.
  - intros date. by apply getConnection_existing.
  - intros env' credentials' kind' date0' date1'. simpl.
    rewrite (createConnection_existing _ _ _ _ _ _ _ _ Hentry). simpl.
    split; [done|]. split; [done|]. split.
    + unfold getConnectionCount. simpl. by eapply size_insert_present.
    + intros other Hne. by apply lookup_insert_ne.
Qed.

Lemma createConnection_then_get_witness :
  ∃ pooled,
    connections (createConnection example_drivers "session-1" example_credentials postgres
                   1700000000000 1700000000001 initial).2 !! "session-1" = Some pooled
    ∧ connection pooled = 0%nat.
Proof.
  destruct (createConnection_then_get example_drivers "session-1" example_credentials postgres
              1700000000000 1700000000001 initial 0%nat example_pool eq_refl)
    as (pooled & Hentry & Hc & _).
  exists pooled. split; [exact Hentry|exact Hc].
Defined.

(** C10.  For a session id with no entry in the pool, [healthCheck] returns
    [false] without throwing and leaves the whole store as it was: no
    statement is sent and the map is unchanged.  More generally, whenever
    [healthCheck] changes the map, the entry was there, its probe failed,
    and the change is the removal of that entry. *)
Theorem healthCheck_absent env session st :
  (connections st !! session = None → healthCheck env session st = (Ok false, st))
  ∧ (∀ r st',
       healthCheck env session st = (r, st') →
       connections st' ≠ connections st →
       ∃ pooled e,
         connections st !! session = Some pooled
         ∧ connection_query env (connection pooled) "SELECT 1" = Throw e
         ∧ connections st' = delete session (connections st)).
Proof.
  split.
  - intros H. unfold healthCheck. eff_unfold. by rewrite H.
  - intros r st'. unfold healthCheck. eff_unfold.
    destruct (connections st !! session) as [pooled|] eqn:Hentry; simpl.
    + assert (∀ s, (let (r0, st'0) :=
                      match resourceType pooled with
                      | postgres => send env (connection pooled) "SELECT 1"
                      | mysql => send env (connection pooled) "SELECT 1"
                      end s in
                    match r0 with Ok _ => (Ok true, st'0) | Throw e => (Throw e, st'0) end)
                   = (let (r0, st'0) := send env (connection pooled) "SELECT 1" s in
                      match r0 with Ok _ => (Ok true, st'0) | Throw e => (Throw e, st'0) end))
        as -> by (by destruct (resourceType pooled)).
      unfold send. eff_unfold.
      destruct (connection_query env (connection pooled) "SELECT 1") as [[]|e] eqn:Hq; simpl.
      * intros [= <- <-]. done.
      * unfold closeConnection. eff_unfold. simpl. rewrite Hentry.
        assert (∀ s, match resourceType pooled with
                     | postgres => end_connection env (connection pooled)
                     | mysql => end_connection env (connection pooled)
                     end s = end_connection env (connection pooled) s)
          as -> by (by destruct (resourceType pooled)).
        unfold end_connection. eff_unfold.
        destruct (connection_end env (connection pooled)) as [[]|e']; simpl;
          intros [= <- <-] _; exists pooled, e; done.
    + intros [= <- <-]. done.
Qed.

Lemma healthCheck_absent_witness :
  healthCheck example_drivers "session-2" example_pool = (Ok false, example_pool).
Proof.
  apply (proj1 (healthCheck_absent example_drivers "session-2" example_pool)).
  vm_compute. reflexivity.
Defined.

(** A present entry whose probe fails: the statement went out, the
    connection was ended and the entry is gone. *)
Example healthCheck_failed_probe :
  healthCheck example_drivers "session-1" example_pool
  = (Ok false,
     {| driver := [{| driver_kind := postgres; ended := true; statements := ["SELECT 1"] |}];
        connections := ∅ |}).
Proof. vm_compute. reflexivity. Qed.

End pool.

(** ** The life of a tunnel *)
Section tunnel_lifecycle.
Import TcpGateway.

Lemma lookup_fresh0 {A} (l r : list A) a : (l ++ a :: r) !! length l = Some a.
Proof. apply list_lookup_middle. done. Qed.

Lemma lookup_fresh1 {A} (l r : list A) a b : (l ++ a :: b :: r) !! S (length l) = Some b.
Proof.
  change (l ++ a :: b :: r) with (l ++ [a] ++ b :: r). rewrite app_assoc.
  apply list_lookup_middle. rewrite length_app. simpl. lia.
Qed.

Lemma insert_fresh0 {A} (l r : list A) a x : <[length l := x]> (l ++ a :: r) = l ++ x :: r.
Proof. rewrite insert_app_r_alt by lia. by rewrite Nat.sub_diag. Qed.

Lemma insert_fresh1 {A} (l r : list A) a b x :
  <[S (length l) := x]> (l ++ a :: b :: r) = l ++ a :: x :: r.
Proof.
  rewrite insert_app_r_alt by lia.
  by replace (S (length l) - length l) with 1 by lia.
Qed.

Ltac added_sockets :=
  first [ exists []; split; [by rewrite app_nil_r|simpl; lia]
        | eexists [_]; split; [done|simpl; lia] ].

(** The two steps that build the tunnel leave the registry and the tunnel
    objects alone and add at most one socket each, at the end of the heap. *)
Lemma createRelayConnection_frame env gatewayDetails st :
  let '(r, st') := createRelayConnection env gatewayDetails st in
  tunnels st' = tunnels st
  ∧ activeTunnels st' = activeTunnels st
  ∧ match r with
    | Ok sock =>
        sock = length (sockets st)
        ∧ sockets st' = sockets st
                        ++ [{| destroyed := false; destroy_error := relay_destroy_error env |}]
    | Throw _ => ∃ added, sockets st' = sockets st ++ added ∧ (length added ≤ 1)%nat
    end.
Proof.
  unfold createRelayConnection, new_socket. eff_unfold.
  destruct (relayTlsConfig gatewayDetails) as [tlsConfig|e]; simpl.
  - destruct (tls_connect_relay env tlsConfig); simpl; repeat split; try done; added_sockets.
  - repeat split; try done. added_sockets.
Qed.

Lemma createGatewayConnection_frame env relaySocket gatewayDetails st :
  let '(r, st') := createGatewayConnection env relaySocket gatewayDetails st in
  tunnels st' = tunnels st
  ∧ activeTunnels st' = activeTunnels st
  ∧ match r with
    | Ok sock =>
        sock = length (sockets st)
        ∧ sockets st' = sockets st
                        ++ [{| destroyed := false; destroy_error := gateway_destroy_error env |}]
    | Throw _ =>
        ∃ added,
          (length added ≤ 1)%nat
          ∧ (sockets st' = sockets st ++ added
             ∨ ∃ s, sockets st !! relaySocket = Some s
                    ∧ sockets st'
                      = <[relaySocket := {| destroyed := true;
                                            destroy_error := destroy_error s |}]> (sockets st)
                        ++ added)
    end.
Proof.
  unfold createGatewayConnection, new_socket, destroy_underlying. eff_unfold.
  destruct (gatewayTlsConfig relaySocket gatewayDetails) as [tlsConfig|e]; simpl.
  2: { repeat split; try done. exists []. split; [simpl; lia|]. left. by rewrite app_nil_r. }
  destruct (tls_connect_gateway env tlsConfig); simpl; repeat split; try done.
  - exists []. split; [simpl; lia|]. left. by rewrite app_nil_r.
  - eexists [_]. split; [simpl; lia|]. by left.
  - eexists [_]. split; [simpl; lia|].
    destruct (decide (relaySocket < length (sockets st))%nat) as [Hlt|Hge].
    + right. destruct (lookup_lt_is_Some_2 _ _ Hlt) as [s Hs].
      exists s. split; [done|].
      rewrite (lookup_app_l_Some _ _ _ _ Hs). by rewrite insert_app_l.
    + left. destruct (decide (relaySocket = length (sockets st))) as [->|Hne].
      * rewrite list_lookup_middle by done. simpl.
        by rewrite (insert_fresh0 (sockets st) [] _ _).
      * rewrite lookup_ge_None_2; [done|]. rewrite length_app. simpl. lia.
  - eexists [_]. split; [simpl; lia|]. by left.
Qed.

(** An ["error"] on the gateway leg leaves both sockets destroyed: the new
    one, and the relay socket it ran over. *)
Lemma createGatewayConnection_error env relaySocket gatewayDetails st tlsConfig message s :
  gatewayTlsConfig relaySocket gatewayDetails = Ok tlsConfig →
  tls_connect_gateway env tlsConfig = GatewaySocketError message →
  sockets st !! relaySocket = Some s →
  createGatewayConnection env relaySocket gatewayDetails st
  = (Throw (error ("Gateway TLS connection error: " +:+ message)),
     set_sockets
       (λ l, <[relaySocket := {| destroyed := true; destroy_error := destroy_error s |}]> l
             ++ [{| destroyed := true; destroy_error := gateway_destroy_error env |}])
       st).
Proof.
  intros Hcfg Hout Hs.
  unfold createGatewayConnection, new_socket, destroy_underlying. eff_unfold.
  rewrite Hcfg. simpl. rewrite Hout. f_equal.
  unfold set_sockets. simpl. f_equal.
  rewrite (lookup_app_l_Some _ _ _ _ Hs). apply insert_app_l.
  by eapply lookup_lt_Some.
Qed.

Lemma executeQueryByType_state env gatewaySocket credentials sql st :
  (executeQueryByType env gatewaySocket credentials sql st).2 = st.
Proof.
  unfold executeQueryByType. eff_unfold.
  destruct (server_listen env); [|done]. by destruct (pg_session env _ sql).
Qed.

(** What [destroy_if_open] does to the socket heap: the cell of [sock] may
    change, by becoming destroyed; nothing else does. *)
Lemma destroy_if_open_sockets sock st :
  let st' := (destroy_if_open sock st).2 in
  length (sockets st') = length (sockets st)
  ∧ (∀ i, i ≠ sock → sockets st' !! i = sockets st !! i)
  ∧ (∀ s, sockets st !! sock = Some s →
       ∃ s', sockets st' !! sock = Some s'
             ∧ destroy_error s' = destroy_error s
             ∧ (destroyed s = true → destroyed s' = true)
             ∧ (destroy_error s = None → destroyed s' = true)).
Proof.
  unfold destroy_if_open, destroy, set_sockets.
  destruct (sockets st !! sock) as [s|] eqn:Hs; simpl; [|done].
  destruct (destroyed s) eqn:Hd; simpl.
  { split; [done|]. split; [done|]. intros ? [= <-]. rewrite Hs. eauto 10. }
  destruct (destroy_error s) eqn:He; simpl.
  { split; [done|]. split; [done|]. intros ? [= <-]. rewrite Hs.
    eexists. split; [done|]. rewrite He. done. }
  split; [by rewrite length_insert|]. split.
  - intros i Hi. by rewrite list_lookup_insert_ne.
  - intros ? [= <-]. eexists. split.
    + apply list_lookup_insert_eq. by eapply lookup_lt_Some.
    + simpl. by rewrite He.
Qed.

Lemma destroy_if_open_result sock st s :
  sockets st !! sock = Some s →
  destroy_error s = None ∨ destroyed s = true →
  (destroy_if_open sock st).1 = Ok tt.
Proof.
  intros Hs Hok. unfold destroy_if_open, destroy. rewrite Hs.
  destruct (destroyed s); [done|]. destruct Hok as [->|?]; done.
Qed.

(** [closeTunnel] on a registered tunnel, one heap at a time. *)
Lemma closeTunnel_registered sessionId st t tunnel :
  activeTunnels st !! sessionId = Some t →
  tunnels st !! t = Some tunnel →
  let st' := (closeTunnel sessionId st).2 in
  activeTunnels st' = delete sessionId (activeTunnels st)
  ∧ tunnels st' = <[t := inactive tunnel]> (tunnels st)
  ∧ length (sockets st') = length (sockets st)
  ∧ (∀ i, i ≠ gatewaySocket tunnel → i ≠ relaySocket tunnel →
          sockets st' !! i = sockets st !! i)
  ∧ (∀ s, sockets st !! gatewaySocket tunnel = Some s →
          destroy_error s = None →
          ∃ s', sockets st' !! gatewaySocket tunnel = Some s' ∧ destroyed s' = true)
  ∧ (∀ sg sr,
       sockets st !! gatewaySocket tunnel = Some sg →
       destroy_error sg = None ∨ destroyed sg = true →
       sockets st !! relaySocket tunnel = Some sr →
       destroy_error sr = None →
       ∃ s', sockets st' !! relaySocket tunnel = Some s' ∧ destroyed s' = true).
Proof.
  intros Ht Htun. unfold closeTunnel, mark_inactive, destroy_streams. eff_unfold.
  rewrite Ht. simpl. rewrite Htun.
  rewrite list_lookup_insert_eq by (by eapply lookup_lt_Some). simpl.
  match goal with |- context [destroy_if_open (gatewaySocket tunnel) ?s0] =>
    remember s0 as st0 eqn:Hst0
  end.
  assert (sockets st0 = sockets st ∧ activeTunnels st0 = activeTunnels st
          ∧ tunnels st0 = <[t := inactive tunnel]> (tunnels st)) as (Hs0 & Ha0 & Ht0).
  { subst st0. unfold set_tunnels. simpl. by rewrite Htun. }
  clear Hst0.
  pose proof (destroy_if_open_activeTunnels (gatewaySocket tunnel) st0) as [Hg1 Hg2].
  pose proof (destroy_if_open_sockets (gatewaySocket tunnel) st0) as (Hg3 & Hg4 & Hg5).
  pose proof (destroy_if_open_result (gatewaySocket tunnel) st0) as Hg6.
  rewrite Hs0 in Hg3, Hg4, Hg5, Hg6.
  destruct (destroy_if_open (gatewaySocket tunnel) st0) as [rg st1]. simpl in *.
  pose proof (destroy_if_open_activeTunnels (relaySocket tunnel) st1) as [Hr1 Hr2].
  pose proof (destroy_if_open_sockets (relaySocket tunnel) st1) as (Hr3 & Hr4 & Hr5).
  destruct (destroy_if_open (relaySocket tunnel) st1) as [rr st2]. simpl in *.
  destruct rg as [[]|e]; [destruct rr as [[]|e]|]; simpl.
  - (* both destroys returned *)
    rewrite Hr1, Hr2, Hg1, Hg2, Hr3, Hg3, Ha0, Ht0.
    split; [done|]. split; [done|]. split; [done|]. split; [|split].
    + intros i Hig Hir. by rewrite Hr4, Hg4.
    + intros s Hs He. destruct (Hg5 s Hs) as (s1 & Hs1 & He1 & _ & Hd1).
      destruct (decide (gatewaySocket tunnel = relaySocket tunnel)) as [Heq|Hne].
      * rewrite Heq in *. destruct (Hr5 s1 Hs1) as (s2 & Hs2 & _ & Hd2 & _). eauto.
      * rewrite Hr4 by done. eauto.
    + intros sg sr Hsg _ Hsr He.
      assert (∃ s1, sockets st1 !! relaySocket tunnel = Some s1 ∧ destroy_error s1 = None)
        as (s1 & Hs1 & He1).
      { destruct (decide (relaySocket tunnel = gatewaySocket tunnel)) as [Heq|Hne].
        - rewrite Heq in *. destruct (Hg5 sr Hsr) as (s1 & ? & He1 & _). 
          exists s1. split; [done|congruence].
        - rewrite Hg4 by done. eauto. }
      destruct (Hr5 s1 Hs1) as (s2 & Hs2 & _ & _ & Hd2). eauto.
  - (* the relay socket threw: it is open and has a destroy error *)
    rewrite Hr1, Hr2, Hg1, Hg2, Hr3, Hg3, Ha0, Ht0.
    split; [done|]. split; [done|]. split; [done|]. split; [|split].
    + intros i Hig Hir. by rewrite Hr4, Hg4.
    + intros s Hs He. destruct (Hg5 s Hs) as (s1 & Hs1 & He1 & _ & Hd1).
      destruct (decide (gatewaySocket tunnel = relaySocket tunnel)) as [Heq|Hne].
      * rewrite Heq in *. destruct (Hr5 s1 Hs1) as (s2 & Hs2 & _ & Hd2 & _). eauto.
      * rewrite Hr4 by done. eauto.
    + intros sg sr Hsg _ Hsr He.
      assert (∃ s1, sockets st1 !! relaySocket tunnel = Some s1 ∧ destroy_error s1 = None)
        as (s1 & Hs1 & He1).
      { destruct (decide (relaySocket tunnel = gatewaySocket tunnel)) as [Heq|Hne].
        - rewrite Heq in *. destruct (Hg5 sr Hsr) as (s1 & ? & He1 & _). 
          exists s1. split; [done|congruence].
        - rewrite Hg4 by done. eauto. }
      destruct (Hr5 s1 Hs1) as (s2 & Hs2 & _ & _ & Hd2). eauto.
  - (* the gateway socket threw: the relay socket was not reached *)
    rewrite Hg1, Hg2, Hg3, Ha0, Ht0.
    split; [done|]. split; [done|]. split; [done|]. split; [|split].
    + intros i Hig Hir. by rewrite Hg4.
    + intros s Hs He. destruct (Hg5 s Hs) as (s1 & Hs1 & _ & _ & Hd1). eauto.
    + intros sg sr Hsg Hok Hsr He. by specialize (Hg6 sg Hsg Hok).
Qed.

(** How [executeQueryThroughTunnel] rethrows. *)
Lemma rethrow_closeTunnel {A} sessionId (e : Thrown) st :
  (closeTunnel sessionId ;;;
   throw (A := A) (ErrorObj BadRequestError
            (message_or e "Failed to execute query through TCP tunnel"))) st
  = (Throw (ErrorObj BadRequestError
              (message_or e "Failed to execute query through TCP tunnel")),
     (closeTunnel sessionId st).2).
Proof.
  unfold bind, throw. pose proof (closeTunnel_registry sessionId st) as [Hok _].
  by destruct (closeTunnel sessionId st) as [[[]|?] ?].
Qed.

(** The two ways a call can go.  Either a handshake fails: then the store
    the [catch] block closes the tunnel in differs from the initial one by
    at most two sockets added.  Or both succeed: then the tunnel is
    registered over the two new sockets, the query runs, and the tunnel is
    closed whatever the query did. *)
Lemma executeQueryThroughTunnel_paths env sessionId credentials gatewayDetails sql st :
  let out := executeQueryThroughTunnel env sessionId credentials gatewayDetails sql st in
  let n := length (sockets st) in
  let built :=
    (registerTunnel sessionId n (S n)
       (set_sockets
          (λ l, l ++ [{| destroyed := false; destroy_error := relay_destroy_error env |};
                      {| destroyed := false; destroy_error := gateway_destroy_error env |}])
          st)).2 in
  (∃ st1 added e,
      out = (Throw (ErrorObj BadRequestError
                      (message_or e "Failed to execute query through TCP tunnel")),
             (closeTunnel sessionId st1).2)
      ∧ tunnels st1 = tunnels st
      ∧ activeTunnels st1 = activeTunnels st
      ∧ sockets st1 = sockets st ++ added
      ∧ (length added ≤ 2)%nat
      ∧ ((createRelayConnection env gatewayDetails st).1 = Throw e
         ∨ (createGatewayConnection env n gatewayDetails
              (createRelayConnection env gatewayDetails st).2).1 = Throw e))
  ∨ ((createRelayConnection env gatewayDetails st).1 = Ok n
     ∧ (createGatewayConnection env n gatewayDetails
          (createRelayConnection env gatewayDetails st).2).1 = Ok (S n)
     ∧ out = (match (executeQueryByType env (S n) credentials sql built).1 with
              | Ok result => Ok result
              | Throw e =>
                  Throw (ErrorObj BadRequestError
                           (message_or e "Failed to execute query through TCP tunnel"))
              end,
              (closeTunnel sessionId built).2)).
Proof.
  intros out n built.
  assert (out = executeQueryThroughTunnel env sessionId credentials gatewayDetails sql st)
    as Hout by reflexivity.
  clearbody out. unfold executeQueryThroughTunnel, try_catch in Hout.
  unfold bind at 1 in Hout.
  pose proof (createRelayConnection_frame env gatewayDetails st) as Hrelay.
  destruct (createRelayConnection env gatewayDetails st) as [[r|e] st1];
    destruct Hrelay as (Ht1 & Ha1 & Hs1); simpl.
  2: { left. destruct Hs1 as (added & Hs1 & Hlen). exists st1, added, e.
       rewrite rethrow_closeTunnel in Hout. repeat split; try done; [lia|by left]. }
  destruct Hs1 as [-> Hs1]. fold n in Hout |- *. unfold bind at 1 in Hout.
  pose proof (createGatewayConnection_frame env n gatewayDetails st1) as Hgateway.
  destruct (createGatewayConnection env n gatewayDetails st1)
    as [[g|e] st2]; destruct Hgateway as (Ht2 & Ha2 & Hs2); simpl.
  2: { left. destruct Hs2 as (added & Hlen & [Hs2|(s & Hs & Hs2)]).
       - exists st2, ([{| destroyed := false; destroy_error := relay_destroy_error env |}]
                      ++ added), e.
         rewrite rethrow_closeTunnel in Hout. repeat split; try congruence.
         + rewrite Hs2, Hs1. by rewrite <-app_assoc.
         + rewrite length_app. simpl. lia.
         + by right.
       - exists st2, ([{| destroyed := true; destroy_error := destroy_error s |}]
                      ++ added), e.
         rewrite rethrow_closeTunnel in Hout. repeat split; try congruence.
         + rewrite Hs2, Hs1. unfold n. rewrite insert_fresh0. by rewrite <-app_assoc.
         + rewrite length_app. simpl. lia.
         + by right. }
  destruct Hs2 as [-> Hs2]. right.
  assert (length (sockets st1) = S n) as Hn.
  { rewrite Hs1, length_app. simpl. unfold n. lia. }
  rewrite Hn in *. split; [done|]. split; [done|].
  assert (st2 = set_sockets
                  (λ l, l ++ [{| destroyed := false; destroy_error := relay_destroy_error env |};
                              {| destroyed := false;
                                 destroy_error := gateway_destroy_error env |}]) st) as ->.
  { destruct st2 as [s2 t2 a2], st as [s0 t0 a0]. unfold set_sockets. simpl in *.
    rewrite Hs2, Hs1, Ht2, Ht1, Ha2, Ha1. by rewrite <-app_assoc. }
  unfold bind at 1 in Hout. fold built in Hout.
  assert ((registerTunnel sessionId n (S n)
             (set_sockets
                (λ l, l ++ [{| destroyed := false; destroy_error := relay_destroy_error env |};
                            {| destroyed := false;
                               destroy_error := gateway_destroy_error env |}]) st))
          = (Ok tt, built)) as Hreg by (by rewrite registerTunnel_eq).
  rewrite Hreg in Hout. unfold bind at 1 in Hout.
  pose proof (executeQueryByType_state env (S n) credentials sql built) as Hq.
  destruct (executeQueryByType env (S n) credentials sql built) as [[result|e] st3];
    simpl in Hq; subst st3; simpl.
  - unfold bind, ret in Hout.
    pose proof (closeTunnel_registry sessionId built) as [Hok _].
    by destruct (closeTunnel sessionId built) as [[[]|?] ?].
  - by rewrite rethrow_closeTunnel in Hout.
Qed.

Lemma tunnel_call_deletes_entry
    env sessionId credentials gatewayDetails sql st :
  activeTunnels (executeQueryThroughTunnel env sessionId credentials gatewayDetails sql st).2
  = delete sessionId (activeTunnels st).
Proof.
  destruct (executeQueryThroughTunnel_paths env sessionId credentials gatewayDetails sql st)
    as [(st1 & added & e & -> & _ & Ha & _)|(_ & _ & ->)]; simpl.
  - destruct (closeTunnel_registry sessionId st1) as [_ ->]. by rewrite Ha.
  - match goal with |- context [closeTunnel sessionId ?s] =>
      destruct (closeTunnel_registry sessionId s) as [_ ->]
    end.
    rewrite ?registerTunnel_eq. simpl. apply delete_insert_eq.
Qed.

(** X1.  Whatever the network and the driver do, a call of
    [executeQueryThroughTunnel] changes the registry in one way only: the
    entry of its own session id is gone afterwards.  The entries of all
    other session ids are the ones that were there before. *)
Theorem executeQueryThroughTunnel_registry_effect
    env sessionId credentials gatewayDetails sql st :
  let st' := (executeQueryThroughTunnel env sessionId credentials gatewayDetails sql st).2 in
  activeTunnels st' = delete sessionId (activeTunnels st)
  ∧ activeTunnels st' !! sessionId = None
  ∧ (∀ other, other ≠ sessionId → activeTunnels st' !! other = activeTunnels st !! other).
Proof.
  simpl. rewrite tunnel_call_deletes_entry.
  split; [done|]. split; [apply lookup_delete_eq|].
  intros other Hne. by apply lookup_delete_ne.
Qed.

Lemma executeQueryByType_result env gatewaySocket credentials sql st st' :
  (executeQueryByType env gatewaySocket credentials sql st).1
  = (executeQueryByType env gatewaySocket credentials sql st').1.
Proof.
  unfold executeQueryByType. eff_unfold.
  destruct (server_listen env); [|done]. by destruct (pg_session env _ sql).
Qed.

(** [closeTunnel] on the tunnel a call has just registered over its two
    new sockets, when destroying them does not throw. *)
Lemma closeTunnel_built sessionId l ts m :
  closeTunnel sessionId
    {| sockets := l ++ [{| destroyed := false; destroy_error := None |};
                        {| destroyed := false; destroy_error := None |}];
       tunnels := ts ++ [{| relaySocket := length l;
                            gatewaySocket := S (length l);
                            isActive := true |}];
       activeTunnels := <[sessionId := length ts]> m |}
  = (Ok tt,
     {| sockets := l ++ [{| destroyed := true; destroy_error := None |};
                         {| destroyed := true; destroy_error := None |}];
        tunnels := ts ++ [{| relaySocket := length l;
                             gatewaySocket := S (length l);
                             isActive := false |}];
        activeTunnels := delete sessionId m |}).
Proof.
  unfold closeTunnel, mark_inactive, destroy_streams, destroy_if_open, destroy,
    set_tunnels, set_sockets, set_activeTunnels.
  eff_unfold. simpl. rewrite lookup_insert_eq. simpl.
  repeat (progress (rewrite ?lookup_fresh0, ?lookup_fresh1, ?insert_fresh0, ?insert_fresh1;
                    simpl)).
  by rewrite delete_insert_eq.
Qed.

(** X4.  When the relay options cannot be built (a relay certificate field
    is absent or empty, with [relayHost] a string), the network is not
    asked anything and no socket comes into being: the call fails with the
    message of the missing relay certificates, and all it does to the store
    is the [closeTunnel] of its [catch] block; with no entry for the
    session id, nothing at all. *)
Theorem executeQueryThroughTunnel_relay_certificates_missing
    env sessionId credentials gatewayDetails sql st rh :
  relayHost gatewayDetails = Some rh →
  truthy (relayClientCertificate gatewayDetails)
    && truthy (relayClientPrivateKey gatewayDetails)
    && truthy (relayServerCertificateChain gatewayDetails) = false →
  executeQueryThroughTunnel env sessionId credentials gatewayDetails sql st
  = (Throw (ErrorObj BadRequestError "Missing relay TLS certificates or keys"),
     (closeTunnel sessionId st).2)
  ∧ (activeTunnels st !! sessionId = None →
     executeQueryThroughTunnel env sessionId credentials gatewayDetails sql st
     = (Throw (ErrorObj BadRequestError "Missing relay TLS certificates or keys"), st)).
Proof.
  intros Hrh Hmissing.
  assert (executeQueryThroughTunnel env sessionId credentials gatewayDetails sql st
          = (Throw (ErrorObj BadRequestError "Missing relay TLS certificates or keys"),
             (closeTunnel sessionId st).2)) as Heq.
  { unfold executeQueryThroughTunnel, try_catch, createRelayConnection, relayTlsConfig.
    unfold bind at 1. unfold bind at 1. unfold lift_result. rewrite Hrh.
    destruct (parseRelayHost rh) as [host port].
    assert (negb (truthy (relayClientCertificate gatewayDetails))
            || negb (truthy (relayClientPrivateKey gatewayDetails))
            || negb (truthy (relayServerCertificateChain gatewayDetails)) = true) as ->.
    { by destruct (truthy _), (truthy _), (truthy _). }
    by rewrite rethrow_closeTunnel. }
  split; [done|]. intros Hfree. by rewrite Heq, closeTunnel_absent.
Qed.

Lemma executeQueryThroughTunnel_relay_certificates_missing_witness :
  executeQueryThroughTunnel example_network "session-1" example_credentials
    (Proxy.tunnelDetails example_bundle_partial "session-1") "SELECT 1" initial
  = (Throw (ErrorObj BadRequestError "Missing relay TLS certificates or keys"), initial).
Proof.
  apply (proj2 (executeQueryThroughTunnel_relay_certificates_missing example_network
                  "session-1" example_credentials
                  (Proxy.tunnelDetails example_bundle_partial "session-1") "SELECT 1" initial
                  "relay.example.com" eq_refl eq_refl)).
  reflexivity.
Defined.

(** X5.  [closeTunnel] on a registered tunnel whose two sockets can be
    destroyed: it returns normally, both sockets are destroyed, the tunnel
    object is marked inactive, the entry is removed, and no other socket,
    tunnel object or entry is touched. *)
Theorem closeTunnel_tears_down sessionId st t tunnel sg sr :
  activeTunnels st !! sessionId = Some t →
  tunnels st !! t = Some tunnel →
  sockets st !! gatewaySocket tunnel = Some sg →
  sockets st !! relaySocket tunnel = Some sr →
  destroy_error sg = None →
  destroy_error sr = None →
  let st' := (closeTunnel sessionId st).2 in
  (closeTunnel sessionId st).1 = Ok tt
  ∧ activeTunnels st' = delete sessionId (activeTunnels st)
  ∧ tunnels st' !! t = Some (inactive tunnel)
  ∧ (∀ j, j ≠ t → tunnels st' !! j = tunnels st !! j)
  ∧ (∃ s, sockets st' !! gatewaySocket tunnel = Some s ∧ destroyed s = true)
  ∧ (∃ s, sockets st' !! relaySocket tunnel = Some s ∧ destroyed s = true)
  ∧ (∀ i, i ≠ gatewaySocket tunnel → i ≠ relaySocket tunnel →
          sockets st' !! i = sockets st !! i).
Proof.
  intros Ht Htun Hsg Hsr Heg Her st'.
  destruct (closeTunnel_registered sessionId st t tunnel Ht Htun)
    as (Ha & Hts & _ & Hother & Hg & Hr).
  destruct (closeTunnel_registry sessionId st) as [Hok _].
  split; [done|]. split; [done|]. unfold st'. rewrite Hts.
  split; [apply list_lookup_insert_eq; by eapply lookup_lt_Some|].
  split; [intros j Hj; by apply list_lookup_insert_ne|].
  split; [by eapply Hg|]. split; [|done].
  eapply Hr; eauto.
Qed.

Lemma closeTunnel_tears_down_witness :
  ∃ s, sockets (closeTunnel "session-1" example_registered).2 !! 0%nat = Some s
       ∧ destroyed s = true.
Proof.
  apply (closeTunnel_tears_down "session-1" example_registered 0
           {| relaySocket := 0; gatewaySocket := 1; isActive := true |}
           example_open example_open); reflexivity.
Defined.

(** X6.  When destroying the gateway socket throws, [closeTunnel] still
    returns normally, marks the tunnel inactive and removes the entry, but
    it does not get to the relay socket: the socket heap is left exactly as
    it was. *)
Theorem closeTunnel_gateway_destroy_throws sessionId st t tunnel sg e :
  activeTunnels st !! sessionId = Some t →
  tunnels st !! t = Some tunnel →
  sockets st !! gatewaySocket tunnel = Some sg →
  destroyed sg = false →
  destroy_error sg = Some e →
  closeTunnel sessionId st
  = (Ok tt,
     {| sockets := sockets st;
        tunnels := <[t := inactive tunnel]> (tunnels st);
        activeTunnels := delete sessionId (activeTunnels st) |}).
Proof.
  intros Ht Htun Hsg Hopen Herr.
  unfold closeTunnel, mark_inactive, destroy_streams, set_tunnels, set_activeTunnels.
  eff_unfold. rewrite Ht. simpl. rewrite Htun.
  rewrite list_lookup_insert_eq by (by eapply lookup_lt_Some). simpl.
  unfold destroy_if_open, destroy. simpl. by rewrite Hsg, Hopen, Herr.
Qed.

Lemma closeTunnel_gateway_destroy_throws_witness :
  closeTunnel "session-1" example_registered_stuck
  = (Ok tt,
     {| sockets := sockets example_registered_stuck;
        tunnels := [{| relaySocket := 0; gatewaySocket := 1; isActive := false |}];
        activeTunnels := ∅ |}).
Proof.
  apply (closeTunnel_gateway_destroy_throws "session-1" example_registered_stuck 0
           {| relaySocket := 0; gatewaySocket := 1; isActive := true |}
           {| destroyed := false; destroy_error := Some (ErrorObj Error "destroy failed") |}
           (ErrorObj Error "destroy failed")); reflexivity.
Defined.

(** *** Closing every tunnel *)

Lemma destroy_if_open_kept sock st : sockets_kept st (destroy_if_open sock st).2.
Proof.
  destruct (destroy_if_open_sockets sock st) as (_ & Hother & Hsock).
  intros i s Hi. destruct (decide (i = sock)) as [->|Hne].
  - destruct (Hsock s Hi) as (s' & ? & ? & ? & _). eauto.
  - rewrite Hother by done. eauto.
Qed.

Lemma sockets_kept_trans st1 st2 st3 :
  sockets_kept st1 st2 → sockets_kept st2 st3 → sockets_kept st1 st3.
Proof.
  intros H12 H23 i s Hi.
  destruct (H12 i s Hi) as (s2 & Hi2 & He2 & Hd2).
  destruct (H23 i s2 Hi2) as (s3 & Hi3 & He3 & Hd3).
  exists s3. split; [done|]. split; [congruence|auto].
Qed.

Lemma tunnels_kept_trans st1 st2 st3 :
  tunnels_kept st1 st2 → tunnels_kept st2 st3 → tunnels_kept st1 st3.
Proof.
  intros H12 H23 j tunnel Hj.
  destruct (H12 j tunnel Hj) as (t2 & Hj2 & Hr2 & Hg2).
  destruct (H23 j t2 Hj2) as (t3 & Hj3 & Hr3 & Hg3).
  exists t3. split; [done|]. split; congruence.
Qed.

Lemma closeTunnel_kept sessionId st :
  sockets_kept st (closeTunnel sessionId st).2
  ∧ tunnels_kept st (closeTunnel sessionId st).2.
Proof.
  destruct (activeTunnels st !! sessionId) as [t|] eqn:Ht.
  2: { rewrite closeTunnel_absent by done. split; intros ? ? ?; eauto. }
  unfold closeTunnel, mark_inactive. eff_unfold. rewrite Ht. simpl.
  match goal with |- context [destroy_streams t ?s0] => remember s0 as st0 eqn:Hst0 end.
  assert (sockets st0 = sockets st ∧ tunnels_kept st st0) as [Hs0 Ht0].
  { subst st0. split; [done|]. unfold set_tunnels. simpl. intros j tunnel Hj.
    destruct (tunnels st !! t) as [tun|] eqn:Htun; simpl; [|eauto].
    destruct (decide (j = t)) as [->|Hne].
    - rewrite list_lookup_insert_eq by (by eapply lookup_lt_Some).
      eexists. split; [done|]. simpl. by simplify_eq.
    - rewrite list_lookup_insert_ne by done. eauto. }
  clear Hst0.
  assert (sockets_kept st0 (destroy_streams t st0).2
          ∧ tunnels (destroy_streams t st0).2 = tunnels st0) as [Hk Hts].
  { split; [|apply destroy_streams_ok].
    unfold destroy_streams. eff_unfold.
    destruct (tunnels st0 !! t) as [tun|]; [|intros ? ? ?; eauto].
    pose proof (destroy_if_open_kept (gatewaySocket tun) st0) as Hg.
    destruct (destroy_if_open (gatewaySocket tun) st0) as [[[]|?] st1]; simpl in *; [|done].
    pose proof (destroy_if_open_kept (relaySocket tun) st1) as Hr.
    destruct (destroy_if_open (relaySocket tun) st1) as [[[]|?] st2]; simpl in *;
      by eapply sockets_kept_trans. }
  destruct (destroy_streams_ok t st0) as [Hok _].
  destruct (destroy_streams t st0) as [r st1]. simpl in *. subst r. simpl.
  split.
  - intros i s Hi. rewrite <-Hs0 in Hi. by apply Hk.
  - intros j tunnel Hj. destruct (Ht0 j tunnel Hj) as (tunnel' & Hj' & ? & ?).
    unfold set_activeTunnels. simpl. rewrite Hts. eauto.
Qed.

Lemma lookup_foldl_delete {A} (order : list string) (m : gmap string A) k :
  foldl (λ m k, delete k m) m order !! k = if decide (k ∈ order) then None else m !! k.
Proof.
  revert m. induction order as [|k' order IH]; intros m.
  - rewrite decide_False by apply not_elem_of_nil. done.
  - simpl. rewrite IH. destruct (decide (k = k')) as [->|Hne].
    + rewrite lookup_delete_eq, (decide_True _ _ (list_elem_of_here _ _)).
      by destruct (decide (k' ∈ order)).
    + rewrite lookup_delete_ne by done.
      destruct (decide (k ∈ order)) as [Hin|Hin].
      * rewrite decide_True; [done|by apply list_elem_of_further].
      * rewrite decide_False; [done|].
        intros [?|?]%elem_of_cons; done.
Qed.

Lemma closeAllTunnels_fold order st :
  let st' := foldl (λ st sessionId, (closeTunnel sessionId st).2) st order in
  activeTunnels st' = foldl (λ m k, delete k m) (activeTunnels st) order
  ∧ sockets_kept st st'
  ∧ tunnels_kept st st'.
Proof.
  revert st. induction order as [|k order IH]; intros st; simpl.
  - split; [done|]. split; intros ? ? ?; eauto.
  - destruct (IH (closeTunnel k st).2) as (Ha & Hs & Ht).
    destruct (closeTunnel_registry k st) as [_ Hreg].
    destruct (closeTunnel_kept k st) as [Hs0 Ht0].
    rewrite Ha, Hreg. split; [done|].
    split; [by eapply sockets_kept_trans|by eapply tunnels_kept_trans].
Qed.

Lemma closeAllTunnels_registry_empty order st :
  enumerates order (activeTunnels st) →
  activeTunnels (closeAllTunnels order st).2 = ∅.
Proof.
  intros [_ Hkeys]. unfold closeAllTunnels. simpl.
  destruct (closeAllTunnels_fold order st) as [-> _].
  apply map_eq. intros k. rewrite lookup_foldl_delete, lookup_empty.
  destruct (decide (k ∈ order)) as [Hin|Hin]; [done|].
  destruct (activeTunnels st !! k) eqn:Hk; [|done].
  exfalso. apply Hin, Hkeys. eauto.
Qed.

(** X7.  [closeAllTunnels], whatever the order in which the map hands out
    its keys: it never fails and leaves the registry empty, so that a second
    call has nothing to do; and for every tunnel that was registered, the
    gateway socket is destroyed afterwards if destroying it does not
    throw. *)
Theorem closeAllTunnels_empties order st :
  enumerates order (activeTunnels st) →
  let st' := (closeAllTunnels order st).2 in
  (closeAllTunnels order st).1 = Ok tt
  ∧ activeTunnels st' = ∅
  ∧ closeAllTunnels [] st' = (Ok tt, st')
  ∧ (∀ sessionId t tunnel s,
       activeTunnels st !! sessionId = Some t →
       tunnels st !! t = Some tunnel →
       sockets st !! gatewaySocket tunnel = Some s →
       destroy_error s = None →
       ∃ s', sockets st' !! gatewaySocket tunnel = Some s' ∧ destroyed s' = true).
Proof.
  intros [Hnodup Hkeys] st'. split; [done|].
  assert (activeTunnels st' = ∅) as Hempty
    by (by apply closeAllTunnels_registry_empty).
  split; [done|]. split; [done|].
  intros sessionId t tunnel s Ht Htun Hs He.
  assert (sessionId ∈ order) as Hin by (apply Hkeys; eauto).
  apply list_elem_of_split in Hin as (before & after & ->).
  unfold st', closeAllTunnels. simpl. rewrite foldl_app. simpl.
  set (st1 := foldl (λ st sessionId, (closeTunnel sessionId st).2) st before).
  destruct (closeAllTunnels_fold before st) as (Ha1 & Hs1 & Ht1). fold st1 in Ha1, Hs1, Ht1.
  assert (activeTunnels st1 !! sessionId = Some t) as Ht'.
  { rewrite Ha1, lookup_foldl_delete. rewrite decide_False; [done|].
    apply NoDup_app in Hnodup as (_ & Hdisj & _). intros Hin. apply (Hdisj _ Hin).
    apply list_elem_of_here. }
  destruct (Ht1 t tunnel Htun) as (tunnel1 & Htun1 & _ & Hg1).
  destruct (Hs1 _ s Hs) as (s1 & Hs1' & He1 & _).
  destruct (closeTunnel_registered sessionId st1 t tunnel1 Ht' Htun1)
    as (_ & _ & _ & _ & Hgw & _).
  rewrite Hg1 in Hgw. destruct (Hgw s1 Hs1' ltac:(congruence)) as (s2 & Hs2 & Hd2).
  destruct (closeAllTunnels_fold after (closeTunnel sessionId st1).2) as (_ & Hs3 & _).
  destruct (Hs3 _ s2 Hs2) as (s3 & Hs3' & _ & Hd3). eauto.
Qed.

Lemma closeAllTunnels_empties_witness :
  activeTunnels (closeAllTunnels ["session-1"] example_registered).2 = ∅.
Proof.
  apply (closeAllTunnels_empties ["session-1"] example_registered).
  split.
  - apply NoDup_singleton.
  - intros k. rewrite list_elem_of_singleton. unfold example_registered. simpl.
    split.
    + intros ->. by eexists.
    + intros [x Hx]. apply lookup_singleton_Some in Hx as [-> _]. done.
Defined.

(** Between calls run one after the other, the registry is empty. *)
Lemma registry_empty_reachable st : rtc step initial st → activeTunnels st = ∅.
Proof.
  assert (∀ a b, rtc step a b → activeTunnels a = ∅ → activeTunnels b = ∅) as Hkeep.
  { induction 1 as [|st1 st2 st3 Hstep _ IH]; [done|].
    intros Hempty. apply IH.
    destruct Hstep as [env sessionId credentials gatewayDetails sql st1|order st1 H].
    - rewrite tunnel_call_deletes_entry, Hempty. apply delete_empty.
    - by apply closeAllTunnels_registry_empty. }
  intros Hreach. by eapply Hkeep.
Qed.

(** X2.  With calls run one after the other, a call whose two handshakes
    succeed has torn its tunnel down when it completes, whichever way the
    driver session settled: started in a store reached by earlier calls,
    it returns the result of the query, or fails with a [BadRequestError]
    that carries the message of what the query threw, and in both cases
    the two sockets it opened are destroyed, its tunnel object is inactive
    and the registry is empty. *)
Theorem executeQueryThroughTunnel_built_then_torn_down
    env sessionId credentials gatewayDetails sql st relayConfig gatewayConfig :
  rtc step initial st →
  relayTlsConfig gatewayDetails = Ok relayConfig →
  tls_connect_relay env relayConfig = RelayAuthorized →
  gatewayTlsConfig (length (sockets st)) gatewayDetails = Ok gatewayConfig →
  tls_connect_gateway env gatewayConfig = GatewayProtocol →
  relay_destroy_error env = None →
  gateway_destroy_error env = None →
  executeQueryThroughTunnel env sessionId credentials gatewayDetails sql st
  = (match (executeQueryByType env (S (length (sockets st))) credentials sql st).1 with
     | Ok result => Ok result
     | Throw e =>
         Throw (ErrorObj BadRequestError
                  (message_or e "Failed to execute query through TCP tunnel"))
     end,
     {| sockets := sockets st ++ [{| destroyed := true; destroy_error := None |};
                                  {| destroyed := true; destroy_error := None |}];
        tunnels := tunnels st ++ [{| relaySocket := length (sockets st);
                                     gatewaySocket := S (length (sockets st));
                                     isActive := false |}];
        activeTunnels := ∅ |}).
Proof.
  intros Hreach Hrc Hrelay Hgc Hgateway Hre Hge.
  pose proof (registry_empty_reachable st Hreach) as Hempty.
  assert (createRelayConnection env gatewayDetails st
          = (Ok (length (sockets st)),
             set_sockets (λ l, l ++ [{| destroyed := false; destroy_error := None |}]) st))
    as Hr.
  { unfold createRelayConnection, new_socket. eff_unfold. by rewrite Hrc, Hrelay, Hre. }
  assert (∀ st1, sockets st1 = sockets st ++ [{| destroyed := false; destroy_error := None |}]
                 → (createGatewayConnection env (length (sockets st)) gatewayDetails st1).1
                   = Ok (length (sockets st1))) as Hg.
  { intros st1 _. unfold createGatewayConnection, new_socket. eff_unfold.
    by rewrite Hgc, Hgateway. }
  destruct (executeQueryThroughTunnel_paths env sessionId credentials gatewayDetails sql st)
    as [(st1 & added & e & _ & _ & _ & _ & _ & [Hfail|Hfail])|(_ & _ & ->)].
  - by rewrite Hr in Hfail.
  - rewrite Hr in Hfail. simpl in Hfail. by rewrite Hg in Hfail.
  - rewrite registerTunnel_eq, Hre, Hge. simpl.
    rewrite closeTunnel_built. simpl. rewrite Hempty, delete_empty. f_equal.
    by rewrite (executeQueryByType_result env _ credentials sql _ st).
Qed.

Lemma executeQueryThroughTunnel_built_then_torn_down_witness :
  executeQueryThroughTunnel example_network "session-1" example_credentials
    example_details "SELECT 1" initial
  = (Ok {| fields := [("?column?", "23")];
           rows := [[VNumber 1]];
           rowCount := 1;
           success := true |},
     {| sockets := [{| destroyed := true; destroy_error := None |};
                    {| destroyed := true; destroy_error := None |}];
        tunnels := [{| relaySocket := 0; gatewaySocket := 1; isActive := false |}];
        activeTunnels := ∅ |}).
Proof.
  apply (executeQueryThroughTunnel_built_then_torn_down example_network "session-1"
           example_credentials example_details "SELECT 1" initial
           {| relay_host := "relay.example.com";
              relay_port := Int 8443;
              relay_cert := "relay-cert-data";
              relay_key := "relay-key-data";
              relay_ca := "relay-chain-data";
              relay_rejectUnauthorized := true;
              relay_minVersion := "TLSv1.2";
              relay_servername := "relay.example.com" |}
           {| gateway_cert := "gateway-cert-data";
              gateway_key := "gateway-key-data";
              gateway_ca := "gateway-chain-data";
              gateway_rejectUnauthorized := false;
              gateway_minVersion := "TLSv1.2";
              gateway_maxVersion := "TLSv1.3";
              gateway_ALPNProtocols := ["infisical-pam-proxy"];
              gateway_servername := "localhost";
              gateway_socket := 0 |});
    [apply rtc_refl | vm_compute; reflexivity ..].
Defined.

(** X3.  With calls run one after the other, a call never touches what
    earlier calls left behind: started in a store reached by earlier
    calls, a call that completes leaves the registry empty as it was, and
    every socket and every tunnel object that existed keeps its place and
    its state, so that a socket an earlier call left open is still open.
    What the call adds comes after them. *)
Theorem executeQueryThroughTunnel_frame env sessionId credentials gatewayDetails sql st :
  rtc step initial st →
  let st' := (executeQueryThroughTunnel env sessionId credentials gatewayDetails sql st).2 in
  activeTunnels st = ∅
  ∧ activeTunnels st' = ∅
  ∧ (∀ i s, sockets st !! i = Some s → sockets st' !! i = Some s)
  ∧ (∀ j tunnel, tunnels st !! j = Some tunnel → tunnels st' !! j = Some tunnel).
Proof.
  intros Hreach st'. pose proof (registry_empty_reachable st Hreach) as Hempty.
  split; [done|]. split.
  { unfold st'. rewrite tunnel_call_deletes_entry, Hempty. apply delete_empty. }
  unfold st'.
  destruct (executeQueryThroughTunnel_paths env sessionId credentials gatewayDetails sql st)
    as [(st1 & added & e & -> & Ht & Ha & Hs & _)|(_ & _ & ->)]; simpl.
  - rewrite closeTunnel_absent by (by rewrite Ha, Hempty). simpl. rewrite Hs, Ht.
    split; [|done]. intros i s Hi. by apply lookup_app_l_Some.
  - rewrite ?registerTunnel_eq. simpl.
    match goal with |- context [closeTunnel sessionId ?s] =>
      destruct (closeTunnel_registered sessionId s (length (tunnels st))
                  {| relaySocket := length (sockets st);
                     gatewaySocket := S (length (sockets st));
                     isActive := true |})
        as (_ & Htun & _ & Hsock & _)
    end.
    { simpl. apply lookup_insert_eq. }
    { simpl. apply lookup_fresh0. }
    simpl in *. split.
    + intros i s Hi. pose proof (lookup_lt_Some _ _ _ Hi).
      rewrite Hsock by lia. by apply lookup_app_l_Some.
    + intros j tunnel Hj. pose proof (lookup_lt_Some _ _ _ Hj).
      rewrite Htun, list_lookup_insert_ne by lia. by apply lookup_app_l_Some.
Qed.

Lemma executeQueryThroughTunnel_frame_witness :
  sockets (executeQueryThroughTunnel example_network "session-2" example_credentials
             example_details "SELECT 1"
             (executeQueryThroughTunnel example_network "session-1" example_credentials
                example_details "SELECT 1" initial).2).2 !! 0%nat
  = Some {| destroyed := true; destroy_error := None |}.
Proof.
  destruct (executeQueryThroughTunnel_frame example_network "session-2" example_credentials
              example_details "SELECT 1"
              (executeQueryThroughTunnel example_network "session-1" example_credentials
                 example_details "SELECT 1" initial).2)
    as (_ & _ & H & _).
  - apply rtc_once. apply step_executeQueryThroughTunnel.
  - apply (H 0%nat). vm_compute. reflexivity.
Defined.

(** X8.  Calls run one after the other never leave a tunnel behind: in
    every store reached from the initial one by calls of
    [executeQueryThroughTunnel] and [closeAllTunnels], the registry is
    empty, [getActiveTunnelCount] is 0 and [getActiveTunnels] lists
    nothing. *)
Theorem registry_empty_between_calls st :
  rtc step initial st →
  activeTunnels st = ∅
  ∧ getActiveTunnelCount st = 0%nat
  ∧ ∀ order, getActiveTunnels order st = [].
Proof.
  intros Hreach.
  assert (∀ a b, rtc step a b → activeTunnels a = ∅ → activeTunnels b = ∅) as Hkeep.
  { induction 1 as [|st1 st2 st3 Hstep _ IH]; [done|].
    intros Hempty. apply IH.
    destruct Hstep as [env sessionId credentials gatewayDetails sql st1|order st1 H].
    - rewrite tunnel_call_deletes_entry, Hempty. apply delete_empty.
    - by apply closeAllTunnels_registry_empty. }
  assert (activeTunnels st = ∅) as Hempty by (by eapply Hkeep).
  split; [done|]. split.
  - unfold getActiveTunnelCount. by rewrite Hempty, map_size_empty.
  - intros order. unfold getActiveTunnels. rewrite Hempty.
    induction order as [|k order IH]; [done|]. simpl. by rewrite lookup_empty.
Qed.

Lemma registry_empty_between_calls_witness :
  getActiveTunnelCount
    (executeQueryThroughTunnel example_network "session-1" example_credentials
       example_details "SELECT 1" initial).2 = 0%nat.
Proof.
  apply (registry_empty_between_calls
           (executeQueryThroughTunnel example_network "session-1" example_credentials
              example_details "SELECT 1" initial).2).
  apply rtc_once. apply step_executeQueryThroughTunnel.
Defined.

End tunnel_lifecycle.

(** ** The result handed back, and more on the relay address *)
Section results_and_addresses.
Import TcpGateway.



Lemma split_head_without c s : includes c (split c s).1 = false.
Proof.
  induction s as [|a s IH]; simpl; [done|].
  destruct (split c s) as [h t]. destruct (Ascii.eqb a c) eqn:Ha; simpl; [done|].
  by rewrite Ha.
Qed.

Lemma split_head_first c s :
  includes c s = true → ∃ rest, s = (split c s).1 +:+ String c rest.
Proof.
  induction s as [|a s IH]; simpl; [done|].
  destruct (split c s) as [h t]. destruct (Ascii.eqb a c) eqn:Ha; simpl in *.
  - intros _. apply Ascii.eqb_eq in Ha as ->. by exists s.
  - intros H. destruct (IH H) as [rest Hrest]. exists rest. by rewrite Hrest at 1.
Qed.

(** X10.  The host the relay leg connects to is exactly the text of
    [relayHost] before its first colon: it holds no colon; it is
    [relayHost] itself when [relayHost] holds no colon; and otherwise
    [relayHost] is that host, a colon, and the rest.  Whenever the options
    for [tls.connect] are built, both their [host] and their SNI
    [servername] are that host. *)
Theorem parseRelayHost_host rh :
  includes ":" (parseRelayHost rh).1 = false
  ∧ (includes ":" rh = false → (parseRelayHost rh).1 = rh)
  ∧ (includes ":" rh = true → ∃ rest, rh = (parseRelayHost rh).1 +:+ ":" +:+ rest)
  ∧ (∀ gatewayDetails tlsConfig,
       relayHost gatewayDetails = Some rh →
       relayTlsConfig gatewayDetails = Ok tlsConfig →
       relay_host tlsConfig = (parseRelayHost rh).1
       ∧ relay_servername tlsConfig = (parseRelayHost rh).1).
Proof.
  split; [|split; [|split]].
  - unfold parseRelayHost. destruct (includes ":" rh) eqn:Hinc; [|done].
    pose proof (split_head_without ":" rh) as H1.
    by destruct (split ":" rh) as [hostPart others].
  - intros Hinc. unfold parseRelayHost. by rewrite Hinc.
  - intros Hinc. unfold parseRelayHost. rewrite Hinc.
    pose proof (split_head_first ":" rh Hinc) as H2.
    by destruct (split ":" rh) as [hostPart others].
  - intros gatewayDetails tlsConfig Hrh. unfold relayTlsConfig. rewrite Hrh.
    destruct (parseRelayHost rh) as [host port].
    destruct (_ || _); [done|]. by intros [= <-].
Qed.

Lemma parseRelayHost_host_witness :
  (parseRelayHost "relay.example.com").1 = "relay.example.com"
  ∧ (∃ rest, "relay.example.com:8443"
             = (parseRelayHost "relay.example.com:8443").1 +:+ ":" +:+ rest)
  ∧ ∃ tlsConfig,
      relayTlsConfig example_details = Ok tlsConfig
      ∧ relay_host tlsConfig = (parseRelayHost "relay.example.com:8443").1
      ∧ relay_servername tlsConfig = (parseRelayHost "relay.example.com:8443").1.
Proof.
  split; [|split].
  - destruct (parseRelayHost_host "relay.example.com") as (_ & H & _).
    exact (H eq_refl).
  - destruct (parseRelayHost_host "relay.example.com:8443") as (_ & _ & H & _).
    exact (H eq_refl).
  - destruct (parseRelayHost_host "relay.example.com:8443") as (_ & _ & _ & H).
    eexists. split; [reflexivity|].
    exact (H example_details _ eq_refl eq_refl).
Defined.

Lemma split_app_without c s1 s2 :
  includes c s1 = false →
  split c (s1 +:+ s2) = (s1 +:+ (split c s2).1, (split c s2).2).
Proof.
  induction s1 as [|a s1 IH].
  - intros _. change ("" +:+ s2) with s2. by destruct (split c s2).
  - change (String a s1 +:+ s2) with (String a (s1 +:+ s2)). simpl.
    destruct (Ascii.eqb a c); [done|]. intros H. by rewrite (IH H).
Qed.

Lemma strip_sign_other a s :
  a ≠ "-"%char → a ≠ "+"%char → strip_sign (String a s) = (false, String a s).
Proof.
  intros Hminus Hplus.
  destruct a as [[] [] [] [] [] [] [] []]; try done.
Qed.

Lemma pretty_N_go_app x s t : pretty_N_go x (s +:+ t) = pretty_N_go x s +:+ t.
Proof.
  revert s. induction (N.lt_wf_0 x) as [x _ IH]. intros s.
  destruct (decide (0 < x)%N) as [Hx|Hx].
  - rewrite (pretty_N_go_step x (s +:+ t)), (pretty_N_go_step x s) by done.
    change (String (pretty_N_char (x `mod` 10)) (s +:+ t))
      with (String (pretty_N_char (x `mod` 10)) s +:+ t).
    apply IH. apply N.div_lt; lia.
  - assert (x = 0%N) as -> by lia. by rewrite !pretty_N_go_0.
Qed.

(** [parseInt] stops at the first character that is not a digit. *)
Lemma parseInt10_prefix (p : N) a rest :
  digit_value a = None →
  parseInt10 (Some (pretty p +:+ String a rest)) = Int (Z.of_N p).
Proof.
  intros Ha. unfold pretty, pretty_N. case_decide as Hp.
  { subst. unfold parseInt10. simpl default.
    change ("0" +:+ String a rest) with (String "0" (String a rest)).
    rewrite (skip_white_space_digit "0" 0%N _ eq_refl). simpl. by rewrite Ha. }
  rewrite <-(pretty_N_go_app p "" (String a rest)).
  change ("" +:+ String a rest) with (String a rest).
  destruct (pretty_N_go_read p ltac:(lia)) as [k Hk].
  destruct (Hk (String a rest)) as (Hread & _ & b & d & tail & Hs & Hd).
  destruct (digit_not_sign _ _ Hd) as (Hws & _ & Hsign).
  unfold parseInt10. simpl default.
  assert (skip_white_space (pretty_N_go p (String a rest)) = pretty_N_go p (String a rest))
    as ->.
  { rewrite Hs. apply (skip_white_space_digit _ _ _ Hd). }
  rewrite Hs, Hsign, <-Hs, Hread. simpl. by rewrite Ha.
Qed.

(** X11.  The port is what stands between the first and the second colon,
    read as far as its digits go: in [h:p:more] and in [h:p] followed by
    text that does not start with a digit, the relay leg connects to port
    [p].  When nothing follows the first colon the port is [NaN], and so
    it is when what follows starts with an ASCII character that is no
    digit, no sign and no white space. *)
Theorem parseRelayHost_port h (p : N) :
  includes ":" h = false →
  (Z.of_N p ≤ max_exact_integer)%Z →
  (∀ more, parseRelayHost (h +:+ ":" +:+ pretty p +:+ ":" +:+ more)
           = (h, Int (Z.of_N p)))
  ∧ (∀ a more, digit_value a = None → a ≠ ":"%char →
               parseRelayHost (h +:+ ":" +:+ pretty p +:+ String a more)
               = (h, Int (Z.of_N p)))
  ∧ parseRelayHost (h +:+ ":") = (h, NaN)
  ∧ (∀ a more, (N_of_ascii a < 128)%N →
               digit_value a = None → is_white_space a = false →
               a ≠ "-"%char → a ≠ "+"%char → includes ":" (String a more) = false →
               parseRelayHost (h +:+ ":" +:+ String a more) = (h, NaN)).
Proof.
  intros Hh _.
  assert (∀ s, includes ":" (h +:+ ":" +:+ s) = true) as Hinc.
  { intros s. rewrite includes_app. simpl. apply orb_true_r. }
  split; [|split; [|split]].
  - intros more. unfold parseRelayHost. rewrite Hinc.
    change (h +:+ ":" +:+ pretty p +:+ ":" +:+ more)
      with (h +:+ String ":" (pretty p +:+ String ":" more)).
    rewrite (split_at_first ":" h _ Hh).
    rewrite (split_at_first ":" (pretty p) more (includes_pretty p)). simpl.
    by rewrite parseInt10_pretty.
  - intros a more Ha Hcolon. unfold parseRelayHost. rewrite Hinc.
    change (h +:+ ":" +:+ pretty p +:+ String a more)
      with (h +:+ String ":" (pretty p +:+ String a more)).
    rewrite (split_at_first ":" h _ Hh).
    rewrite (split_app_without ":" (pretty p) _ (includes_pretty p)). simpl.
    apply Ascii.eqb_neq in Hcolon. rewrite Hcolon.
    destruct (split ":" more) as [m1 m2]. simpl.
    by rewrite (parseInt10_prefix p a m1 Ha).
  - unfold parseRelayHost. rewrite includes_app. simpl. rewrite orb_true_r.
    change (h +:+ ":") with (h +:+ String ":" "").
    by rewrite (split_at_first ":" h "" Hh).
  - intros a more Hascii Ha Hws Hminus Hplus Hno. unfold parseRelayHost. rewrite Hinc.
    change (h +:+ ":" +:+ String a more) with (h +:+ String ":" (String a more)).
    rewrite (split_at_first ":" h _ Hh). rewrite (split_without ":" _ Hno).
    unfold parseInt10. simpl fst. simpl snd. simpl lookup. simpl default.
    rewrite (skip_white_space_ascii a more Hascii Hws).
    rewrite (strip_sign_other a more Hminus Hplus). simpl. by rewrite Ha.
Qed.

Lemma parseRelayHost_port_witness :
  parseRelayHost "relay.example.com:8443:extra" = ("relay.example.com", Int 8443)
  ∧ parseRelayHost "relay.example.com:8443/tcp" = ("relay.example.com", Int 8443)
  ∧ parseRelayHost "relay.example.com:" = ("relay.example.com", NaN)
  ∧ parseRelayHost "relay.example.com:https" = ("relay.example.com", NaN).
Proof.
  assert (includes ":" "relay.example.com" = false) as Hh by reflexivity.
  assert (Z.of_N 8443 ≤ max_exact_integer)%Z as Hp by (vm_compute; discriminate).
  destruct (parseRelayHost_port "relay.example.com" 8443%N Hh Hp) as (H1 & H2 & H3 & H4).
  split; [exact (H1 "extra")|].
  split; [exact (H2 "/"%char "tcp" eq_refl ltac:(discriminate))|].
  split; [exact H3|].
  exact (H4 "h"%char "ttps" eq_refl eq_refl eq_refl
            ltac:(discriminate) ltac:(discriminate) eq_refl).
Defined.

(** White space in front of the port is skipped, whether it is an ASCII
    space, a no-break space (U+00A0), an em space (U+2003) or a byte order
    mark (U+FEFF); a sign is read. *)
Example parseRelayHost_white_space :
  parseRelayHost "h: 80" = ("h", Int 80)
  ∧ parseRelayHost ("h:" +:+ String (ascii_of_N 194) (String (ascii_of_N 160) "80"))
    = ("h", Int 80)
  ∧ parseRelayHost ("h:" +:+ String (ascii_of_N 226)
                               (String (ascii_of_N 128) (String (ascii_of_N 131) "80")))
    = ("h", Int 80)
  ∧ parseRelayHost ("h:" +:+ String (ascii_of_N 239)
                               (String (ascii_of_N 187) (String (ascii_of_N 191) "80")))
    = ("h", Int 80)
  ∧ parseRelayHost "h:-80" = ("h", Int (-80))
  ∧ parseRelayHost "h:+80" = ("h", Int 80).
Proof. vm_compute. done. Qed.

End results_and_addresses.

(** ** The pipeline, step by step *)
Section pipeline_steps.
Import Proxy.

(** A session row is usable at the time of the call. *)
Lemma validateSession_ok env sessionId st session st' :
  validateSession env sessionId st = (Ok session, st') →
  st' = st
  ∧ pamSessionDAL_findById env sessionId = Ok (Some session)
  ∧ status session ≠ Ended
  ∧ match expiresAt session with
    | Some expiresAt => (now env < expiresAt)%Z
    | None => True
    end.
Proof.
  unfold validateSession. eff_unfold.
  destruct (pamSessionDAL_findById env sessionId) as [[s|]|]; try done.
  destruct (decide (status s = Ended)); [done|].
  destruct (expiresAt s) as [e|] eqn:He.
  - destruct (Z.leb_spec e (now env)); [done|]. intros [= <- <-]. rewrite He. done.
  - intros [= <- <-]. by rewrite He.
Qed.

Lemma getResourceForSession_ok env session st resource st' :
  getResourceForSession env session st = (Ok resource, st') →
  st' = st
  ∧ truthy (gatewayId resource) = true
  ∧ ∃ account,
      pamAccountDAL_findById env (accountId session) = Ok (Some account)
      ∧ pamResourceDAL_findById env (resourceId account) = Ok (Some resource).
Proof.
  unfold getResourceForSession. eff_unfold.
  destruct (pamAccountDAL_findById env (accountId session)) as [[account|]|]; try done.
  destruct (pamResourceDAL_findById env (resourceId account)) as [[r|]|] eqn:Hr; try done.
  destruct (truthy (gatewayId r)) eqn:Hg; simpl; [|done].
  intros [= <- <-]. eauto.
Qed.

(** With the four steps of the resolver done, [executeQuery] is the call of
    the tunnel service on the flattened bundle: what that call throws is a
    [BadRequestError] already, and the [catch] of [executeQuery] rebuilds it
    as it is. *)
Lemma executeQuery_resolved
    env sessionId sql queryParams actor st session resource credentials bundle :
  validateSession env sessionId st = (Ok session, st) →
  getResourceForSession env session st = (Ok resource, st) →
  getSessionCredentials env sessionId actor st = (Ok credentials, st) →
  gatewayV2Service_getPAMConnectionDetails env
    (connectionRequest sessionId (default "" (gatewayId resource))) = Ok (Some bundle) →
  executeQuery env sessionId sql queryParams actor st
  = TcpGateway.executeQueryThroughTunnel (postgresTcpGatewayService env) sessionId
      credentials (tunnelDetails bundle sessionId) sql st.
Proof.
  intros Hs Hr Hc Hg. unfold executeQuery, try_catch.
  unfold bind at 1. rewrite Hs. unfold bind at 1. rewrite Hr.
  unfold bind at 1. rewrite Hc. unfold bind at 1.
  rewrite getGatewayConnectionDetails_cases, Hg.
  unfold executeQueryThroughTunnel, bind, ret, throw.
  pose proof (executeQueryThroughTunnel_throws (postgresTcpGatewayService env) sessionId
                credentials (tunnelDetails bundle sessionId) sql st) as Hthrow.
  destruct (TcpGateway.executeQueryThroughTunnel _ _ _ _ _ st) as [[result|e] st']; [done|].
  destruct (Hthrow e eq_refl) as [message ->]. done.
Qed.

(** The two ways a call of [executeQuery] can go. *)
Lemma executeQuery_paths env sessionId sql queryParams actor st :
  (∃ message,
      executeQuery env sessionId sql queryParams actor st
      = (Throw (ErrorObj BadRequestError message), st))
  ∨ (∃ session resource credentials bundle,
       validateSession env sessionId st = (Ok session, st)
       ∧ getResourceForSession env session st = (Ok resource, st)
       ∧ getSessionCredentials env sessionId actor st = (Ok credentials, st)
       ∧ gatewayV2Service_getPAMConnectionDetails env
           (connectionRequest sessionId (default "" (gatewayId resource)))
         = Ok (Some bundle)).
Proof.
  destruct (validateSession env sessionId st) as [[session|e] st1] eqn:Hs.
  2: { left. unfold executeQuery, try_catch. unfold bind at 1. rewrite Hs.
       unfold validateSession in Hs. eff_unfold.
       destruct (pamSessionDAL_findById env sessionId) as [[s|]|]; simplify_eq; eauto.
       destruct (decide (status s = Ended)); simplify_eq; eauto.
       destruct (expiresAt s) as [x|]; [|done].
       destruct (x <=? now env)%Z; simplify_eq; eauto. }
  destruct (validateSession_ok _ _ _ _ _ Hs) as (-> & _).
  destruct (getResourceForSession env session st) as [[resource|e] st1] eqn:Hr.
  2: { left. unfold executeQuery, try_catch. unfold bind at 1. rewrite Hs.
       unfold bind at 1. rewrite Hr.
       pose proof (getResourceForSession_state env session st) as Hst.
       rewrite Hr in Hst. simpl in Hst. subst st1. unfold throw. eauto. }
  destruct (getResourceForSession_ok _ _ _ _ _ Hr) as (-> & _).
  destruct (pamAccountService_getSessionCredentials env sessionId actor)
    as [credentials|e] eqn:Hc.
  2: { left. unfold executeQuery, try_catch. unfold bind at 1. rewrite Hs.
       unfold bind at 1. rewrite Hr. unfold bind at 1, getSessionCredentials, lift_result.
       rewrite Hc. unfold throw. eauto. }
  destruct (gatewayV2Service_getPAMConnectionDetails env
              (connectionRequest sessionId (default "" (gatewayId resource))))
    as [[bundle|]|e] eqn:Hg.
  - right. exists session, resource, credentials, bundle.
    unfold getSessionCredentials, lift_result. by rewrite Hc.
  - left. unfold executeQuery, try_catch. unfold bind at 1. rewrite Hs.
    unfold bind at 1. rewrite Hr. unfold bind at 1, getSessionCredentials, lift_result.
    rewrite Hc. unfold bind at 1. rewrite getGatewayConnectionDetails_cases, Hg.
    unfold throw. eauto.
  - left. unfold executeQuery, try_catch. unfold bind at 1. rewrite Hs.
    unfold bind at 1. rewrite Hr. unfold bind at 1, getSessionCredentials, lift_result.
    rewrite Hc. unfold bind at 1. rewrite getGatewayConnectionDetails_cases, Hg.
    unfold throw. eauto.
Qed.

(** X12.  [executeQuery] returns a result only for a usable session with a
    gateway: the session row exists, is not [Ended] and has not expired,
    its account and resource exist, the resource has a non-empty
    [gatewayId], credentials and a bundle were obtained, and the result is
    the one the tunnel service returned for the flattened bundle. *)
Theorem executeQuery_returns_only_when_resolved
    env sessionId sql queryParams actor st result st' :
  executeQuery env sessionId sql queryParams actor st = (Ok result, st') →
  ∃ session account resource credentials bundle,
    pamSessionDAL_findById env sessionId = Ok (Some session)
    ∧ status session ≠ Ended
    ∧ match expiresAt session with
      | Some expiresAt => (now env < expiresAt)%Z
      | None => True
      end
    ∧ pamAccountDAL_findById env (accountId session) = Ok (Some account)
    ∧ pamResourceDAL_findById env (resourceId account) = Ok (Some resource)
    ∧ truthy (gatewayId resource) = true
    ∧ pamAccountService_getSessionCredentials env sessionId actor = Ok credentials
    ∧ gatewayV2Service_getPAMConnectionDetails env
        (connectionRequest sessionId (default "" (gatewayId resource))) = Ok (Some bundle)
    ∧ TcpGateway.executeQueryThroughTunnel (postgresTcpGatewayService env) sessionId
        credentials (tunnelDetails bundle sessionId) sql st = (Ok result, st').
Proof.
  intros Hok.
  destruct (executeQuery_paths env sessionId sql queryParams actor st)
    as [[message Hfail]|(session & resource & credentials & bundle & Hs & Hr & Hc & Hg)].
  { by rewrite Hfail in Hok. }
  rewrite (executeQuery_resolved _ _ _ _ _ _ _ _ _ _ Hs Hr Hc Hg) in Hok.
  destruct (validateSession_ok _ _ _ _ _ Hs) as (_ & Hfound & Hstatus & Hexp).
  destruct (getResourceForSession_ok _ _ _ _ _ Hr) as (_ & Hgw & account & Ha & Hres).
  exists session, account, resource, credentials, bundle.
  unfold getSessionCredentials, lift_result in Hc.
  destruct (pamAccountService_getSessionCredentials env sessionId actor); simplify_eq.
  done.
Qed.

Lemma executeQuery_returns_only_when_resolved_witness :
  ∃ session,
    pamSessionDAL_findById
      (example_env (Some (example_session None)) (Some example_bundle) 0) "session-1"
    = Ok (Some session)
    ∧ status session ≠ Ended.
Proof.
  destruct (executeQuery_returns_only_when_resolved
              (example_env (Some (example_session None)) (Some example_bundle) 0)
              "session-1" "SELECT 1" [] example_actor TcpGateway.initial
              {| fields := [("?column?", "23")];
                 rows := [[VNumber 1]];
                 rowCount := 1;
                 success := true |}
              {| TcpGateway.sockets := [{| TcpGateway.destroyed := true;
                                           TcpGateway.destroy_error := None |};
                                        {| TcpGateway.destroyed := true;
                                           TcpGateway.destroy_error := None |}];
                 TcpGateway.tunnels := [{| TcpGateway.relaySocket := 0;
                                           TcpGateway.gatewaySocket := 1;
                                           TcpGateway.isActive := false |}];
                 TcpGateway.activeTunnels := ∅ |})
    as (session & _ & _ & _ & _ & Hfound & Hstatus & _).
  { vm_compute. reflexivity. }
  exists session. split; [exact Hfound|exact Hstatus].
Defined.

(** X13.  The store changes only through the tunnel service: when
    [executeQuery] leaves a store other than the one it found, the four
    resolver steps had succeeded, and the store is the one the tunnel
    service left.  A call that fails in the resolver opens no socket. *)
Theorem executeQuery_store_untouched_unless_resolved
    env sessionId sql queryParams actor st :
  (executeQuery env sessionId sql queryParams actor st).2 ≠ st →
  ∃ session resource credentials bundle,
    validateSession env sessionId st = (Ok session, st)
    ∧ getResourceForSession env session st = (Ok resource, st)
    ∧ pamAccountService_getSessionCredentials env sessionId actor = Ok credentials
    ∧ gatewayV2Service_getPAMConnectionDetails env
        (connectionRequest sessionId (default "" (gatewayId resource))) = Ok (Some bundle)
    ∧ (executeQuery env sessionId sql queryParams actor st).2
      = (TcpGateway.executeQueryThroughTunnel (postgresTcpGatewayService env) sessionId
           credentials (tunnelDetails bundle sessionId) sql st).2.
Proof.
  intros Hchanged.
  destruct (executeQuery_paths env sessionId sql queryParams actor st)
    as [[message Hfail]|(session & resource & credentials & bundle & Hs & Hr & Hc & Hg)].
  { by rewrite Hfail in Hchanged. }
  exists session, resource, credentials, bundle.
  rewrite (executeQuery_resolved _ _ _ _ _ _ _ _ _ _ Hs Hr Hc Hg).
  unfold getSessionCredentials, lift_result in Hc.
  destruct (pamAccountService_getSessionCredentials env sessionId actor); simplify_eq.
  done.
Qed.

Lemma executeQuery_store_untouched_unless_resolved_witness :
  ∃ session, validateSession
               (example_env (Some (example_session None)) (Some example_bundle) 0)
               "session-1" TcpGateway.initial
             = (Ok session, TcpGateway.initial).
Proof.
  destruct (executeQuery_store_untouched_unless_resolved
              (example_env (Some (example_session None)) (Some example_bundle) 0)
              "session-1" "SELECT 1" [] example_actor TcpGateway.initial)
    as (session & _ & _ & _ & Hs & _).
  { vm_compute. discriminate. }
  exists session. exact Hs.
Defined.

(** X14.  What the caller sees for a session that cannot be used: for a
    row whose status is [Ended], "Session has ended", whatever its expiry
    date; for any other row whose [expiresAt] is not after the current
    time, "Session has expired".  Both are [BadRequestError]s, and the store
    is untouched. *)
Theorem executeQuery_unusable_session env sessionId sql queryParams actor st session :
  pamSessionDAL_findById env sessionId = Ok (Some session) →
  (status session = Ended →
   executeQuery env sessionId sql queryParams actor st
   = (Throw (ErrorObj BadRequestError "Session has ended"), st))
  ∧ (∀ expiresAt,
       status session ≠ Ended →
       Proxy.expiresAt session = Some expiresAt →
       (expiresAt ≤ now env)%Z →
       executeQuery env sessionId sql queryParams actor st
       = (Throw (ErrorObj BadRequestError "Session has expired"), st)).
Proof.
  intros Hfound. split.
  - intros Hended. unfold executeQuery, try_catch. unfold bind at 1.
    rewrite (validateSession_found _ _ _ _ Hfound).
    by rewrite decide_True by done.
  - intros e Hstatus He Hle. unfold executeQuery, try_catch. unfold bind at 1.
    rewrite (validateSession_found _ _ _ _ Hfound).
    rewrite decide_False by done. rewrite He.
    by destruct (Z.leb_spec e (now env)); [|lia].
Qed.

Lemma executeQuery_unusable_session_witness :
  executeQuery (example_env (Some example_session_ended) (Some example_bundle) 1700000000000)
    "session-1" "SELECT 1" [] example_actor TcpGateway.initial
  = (Throw (ErrorObj BadRequestError "Session has ended"), TcpGateway.initial)
  ∧ executeQuery
      (example_env (Some (example_session (Some 1700000000000%Z))) (Some example_bundle)
         1700000000000)
      "session-1" "SELECT 1" [] example_actor TcpGateway.initial
    = (Throw (ErrorObj BadRequestError "Session has expired"), TcpGateway.initial).
Proof.
  split.
  - apply (proj1 (executeQuery_unusable_session
                    (example_env (Some example_session_ended) (Some example_bundle)
                       1700000000000)
                    "session-1" "SELECT 1" [] example_actor TcpGateway.initial
                    example_session_ended eq_refl)).
    reflexivity.
  - apply (proj2 (executeQuery_unusable_session
                    (example_env (Some (example_session (Some 1700000000000%Z)))
                       (Some example_bundle) 1700000000000)
                    "session-1" "SELECT 1" [] example_actor TcpGateway.initial
                    (example_session (Some 1700000000000%Z)) eq_refl)
             1700000000000%Z).
    + discriminate.
    + reflexivity.
    + simpl. lia.
Defined.

(** X15.  A resource without a gateway: when the session is usable and its
    account and resource exist, but [gatewayId] is [null] or the empty
    string, [executeQuery] fails with "Resource does not have a gateway
    configured" before credentials are asked for, and the store is
    untouched. *)
Theorem executeQuery_no_gateway
    env sessionId sql queryParams actor st session account resource :
  validateSession env sessionId st = (Ok session, st) →
  pamAccountDAL_findById env (accountId session) = Ok (Some account) →
  pamResourceDAL_findById env (resourceId account) = Ok (Some resource) →
  gatewayId resource = None ∨ gatewayId resource = Some "" →
  executeQuery env sessionId sql queryParams actor st
  = (Throw (ErrorObj BadRequestError "Resource does not have a gateway configured"), st).
Proof.
  intros Hs Ha Hr Hgw. unfold executeQuery, try_catch. unfold bind at 1. rewrite Hs.
  unfold bind at 1. unfold getResourceForSession. eff_unfold. rewrite Ha, Hr.
  by destruct Hgw as [->| ->].
Qed.

Lemma executeQuery_no_gateway_witness :
  executeQuery example_env_no_gateway "session-1" "SELECT 1" [] example_actor
    TcpGateway.initial
  = (Throw (ErrorObj BadRequestError "Resource does not have a gateway configured"),
     TcpGateway.initial).
Proof.
  apply (executeQuery_no_gateway example_env_no_gateway "session-1" "SELECT 1" []
           example_actor TcpGateway.initial (example_session None) example_account
           {| resource_id := "res-1"; gatewayId := Some "" |});
    try reflexivity.
  by right.
Defined.

(** X16.  Errors of the collaborators.  What the credential service throws
    reaches the caller as a [BadRequestError] with the same message, or
    with "Failed to execute query via gateway" when the thrown value is not
    an [Error].  What the gateway service throws does not: whatever it is,
    the caller sees "Failed to get gateway connection details for TCP
    tunnel".  The store is untouched in both cases. *)
Theorem executeQuery_collaborator_errors
    env sessionId sql queryParams actor st session resource :
  validateSession env sessionId st = (Ok session, st) →
  getResourceForSession env session st = (Ok resource, st) →
  (∀ e,
     pamAccountService_getSessionCredentials env sessionId actor = Throw e →
     executeQuery env sessionId sql queryParams actor st
     = (Throw (ErrorObj BadRequestError
                 (message_or e "Failed to execute query via gateway")), st))
  ∧ (∀ credentials e,
       pamAccountService_getSessionCredentials env sessionId actor = Ok credentials →
       gatewayV2Service_getPAMConnectionDetails env
         (connectionRequest sessionId (default "" (gatewayId resource))) = Throw e →
       executeQuery env sessionId sql queryParams actor st
       = (Throw (ErrorObj BadRequestError
                   "Failed to get gateway connection details for TCP tunnel"), st)).
Proof.
  intros Hs Hr. split.
  - intros e Hc. unfold executeQuery, try_catch. unfold bind at 1. rewrite Hs.
    unfold bind at 1. rewrite Hr. unfold bind at 1, getSessionCredentials, lift_result.
    by rewrite Hc.
  - intros credentials e Hc Hg. unfold executeQuery, try_catch. unfold bind at 1.
    rewrite Hs. unfold bind at 1. rewrite Hr.
    unfold bind at 1, getSessionCredentials, lift_result. rewrite Hc.
    unfold bind at 1. by rewrite getGatewayConnectionDetails_cases, Hg.
Qed.

Lemma executeQuery_collaborator_errors_witness :
  executeQuery example_env_vault_down "session-1" "SELECT 1" [] example_actor
    TcpGateway.initial
  = (Throw (ErrorObj BadRequestError "Failed to execute query via gateway"),
     TcpGateway.initial).
Proof.
  apply (proj1 (executeQuery_collaborator_errors example_env_vault_down "session-1"
                  "SELECT 1" [] example_actor TcpGateway.initial
                  (example_session None) example_resource eq_refl eq_refl)
           (NonError "vault sealed")).
  reflexivity.
Defined.

(** X17.  For a resolved session the pipeline adds nothing to the tunnel
    service: [executeQuery] returns or fails exactly as
    [executeQueryThroughTunnel] does on the flattened bundle, with the same
    error class and message and the same store. *)
Theorem executeQuery_is_tunnel_call
    env sessionId sql queryParams actor st session resource credentials bundle :
  validateSession env sessionId st = (Ok session, st) →
  getResourceForSession env session st = (Ok resource, st) →
  pamAccountService_getSessionCredentials env sessionId actor = Ok credentials →
  gatewayV2Service_getPAMConnectionDetails env
    (connectionRequest sessionId (default "" (gatewayId resource))) = Ok (Some bundle) →
  executeQuery env sessionId sql queryParams actor st
  = TcpGateway.executeQueryThroughTunnel (postgresTcpGatewayService env) sessionId
      credentials (tunnelDetails bundle sessionId) sql st.
Proof.
  intros Hs Hr Hc Hg. eapply executeQuery_resolved; eauto.
  unfold getSessionCredentials, lift_result. by rewrite Hc.
Qed.

Lemma executeQuery_is_tunnel_call_witness :
  executeQuery (example_env (Some (example_session None)) (Some example_bundle) 0)
    "session-1" "SELECT 1" [] example_actor TcpGateway.initial
  = TcpGateway.executeQueryThroughTunnel example_network "session-1" example_credentials
      (tunnelDetails example_bundle "session-1") "SELECT 1" TcpGateway.initial.
Proof.
  apply (executeQuery_is_tunnel_call
           (example_env (Some (example_session None)) (Some example_bundle) 0)
           "session-1" "SELECT 1" [] example_actor TcpGateway.initial
           (example_session None) example_resource example_credentials example_bundle);
    reflexivity.
Defined.
End pipeline_steps.

(** ** The pool, method by method *)
Section pool_methods.
Import Pool.

(** [closeConnection] on an entry that is there: [end()] is called on its
    connection, the entry is deleted whatever [end()] did, and what [end()]
    threw is thrown on. *)
Lemma closeConnection_present env session st pooled :
  connections st !! session = Some pooled →
  closeConnection env session st
  = (connection_end env (connection pooled),
     {| driver :=
          match connection_end env (connection pooled), driver st !! connection pooled with
          | Ok _, Some c =>
              <[connection pooled := {| driver_kind := driver_kind c;
                                        ended := true;
                                        statements := statements c |}]> (driver st)
          | _, _ => driver st
          end;
        connections := delete session (connections st) |}).
Proof.
  intros H. unfold closeConnection, end_connection, set_driver, set_connections.
  eff_unfold. rewrite H.
  destruct (resourceType pooled);
    destruct (connection_end env (connection pooled)) as [[]|e]; simpl; try done;
    by destruct (driver st !! connection pooled).
Qed.

Lemma closeConnection_absent env session st :
  connections st !! session = None → closeConnection env session st = (Ok tt, st).
Proof. intros H. unfold closeConnection. eff_unfold. by rewrite H. Qed.

Lemma closeConnection_connections env session st :
  connections (closeConnection env session st).2 = delete session (connections st).
Proof.
  destruct (connections st !! session) as [pooled|] eqn:H.
  - by rewrite (closeConnection_present _ _ _ _ H).
  - rewrite closeConnection_absent by done. symmetry. by apply delete_id.
Qed.

Lemma getConnection_absent session date st :
  connections st !! session = None → getConnection session date st = (Throw no_connection, st).
Proof. intros H. unfold getConnection. eff_unfold. by rewrite H. Qed.

(** X18.  [closeConnection] removes the entry even when [end()] throws,
    and throws what [end()] threw.  After it, whatever happened, the pool
    does not know the session: [getConnection] fails, [healthCheck] answers
    [false] and a second [closeConnection] does nothing; the entries of the
    other sessions are the ones that were there. *)
Theorem closeConnection_always_removes env session st :
  let out := closeConnection env session st in
  connections out.2 = delete session (connections st)
  ∧ (∀ pooled, connections st !! session = Some pooled →
               out.1 = connection_end env (connection pooled))
  ∧ (∀ date, getConnection session date out.2 = (Throw no_connection, out.2))
  ∧ (∀ env', healthCheck env' session out.2 = (Ok false, out.2))
  ∧ (∀ env', closeConnection env' session out.2 = (Ok tt, out.2)).
Proof.
  intros out.
  assert (connections out.2 !! session = None) as Hgone.
  { unfold out. rewrite closeConnection_connections. apply lookup_delete_eq. }
  split; [apply closeConnection_connections|]. split; [|split; [|split]].
  - intros pooled H. unfold out. by rewrite (closeConnection_present _ _ _ _ H).
  - intros date. by apply getConnection_absent.
  - intros env'. unfold healthCheck. eff_unfold. by rewrite Hgone.
  - intros env'. by apply closeConnection_absent.
Qed.

Lemma closeConnection_always_removes_witness :
  (closeConnection example_drivers_stuck "session-1" example_pool).1
  = Throw (ErrorObj Error "Connection terminated unexpectedly").
Proof.
  destruct (closeConnection_always_removes example_drivers_stuck "session-1" example_pool)
    as (_ & H & _).
  exact (H {| sessionId := "session-1";
              connection := 0%nat;
              resourceType := postgres;
              createdAt := 1700000000000%Z;
              lastUsed := 1700000000001%Z |} eq_refl).
Defined.

(** X19.  When the driver cannot connect, [createConnection] throws what
    the driver threw and the pool is as it was: no entry is made and no
    connection is kept. *)
Theorem createConnection_connect_fails env session credentials date0 date1 st e :
  connections st !! session = None →
  (pg_connect env
     {| pg_host := host credentials;
        pg_port := port credentials;
        pg_database := database credentials;
        pg_user := username credentials;
        pg_password := password credentials;
        pg_ssl := ssl_options credentials;
        pg_connectionTimeoutMillis := 10000 |} = Throw e →
   createConnection env session credentials postgres date0 date1 st = (Throw e, st))
  ∧ (mysql_createConnection env
       {| my_host := host credentials;
          my_port := port credentials;
          my_database := database credentials;
          my_user := username credentials;
          my_password := password credentials;
          my_ssl := ssl_options credentials;
          my_connectTimeout := 10000 |} = Throw e →
     createConnection env session credentials mysql date0 date1 st = (Throw e, st)).
Proof.
  intros Hfree.
  split; intros Hfail; unfold createConnection, createPostgresConnection,
    createMySQLConnection; eff_unfold; by rewrite Hfree, Hfail.
Qed.

Lemma createConnection_connect_fails_witness :
  createConnection example_drivers_down "session-1" example_credentials postgres
    1700000000000 1700000000001 initial
  = (Throw (ErrorObj Error "connect ECONNREFUSED"), initial).
Proof.
  apply (proj1 (createConnection_connect_fails example_drivers_down "session-1"
                  example_credentials 1700000000000 1700000000001 initial
                  (ErrorObj Error "connect ECONNREFUSED") eq_refl)).
  reflexivity.
Defined.

(** X20.  [healthCheck] on an entry that is there sends [SELECT 1] over its
    connection.  If the driver answers, the result is [true] and the map is
    unchanged.  If it throws, the entry is removed, and the result is
    [false] when [end()] then succeeds; when [end()] throws as well,
    [healthCheck] throws what [end()] threw. *)
Theorem healthCheck_outcomes env session st pooled c :
  connections st !! session = Some pooled →
  driver st !! connection pooled = Some c →
  let out := healthCheck env session st in
  out.1 = match connection_query env (connection pooled) "SELECT 1" with
          | Ok _ => Ok true
          | Throw _ =>
              match connection_end env (connection pooled) with
              | Ok _ => Ok false
              | Throw e => Throw e
              end
          end
  ∧ connections out.2 = match connection_query env (connection pooled) "SELECT 1" with
                        | Ok _ => connections st
                        | Throw _ => delete session (connections st)
                        end
  ∧ ∃ c', driver out.2 !! connection pooled = Some c'
          ∧ statements c' = statements c ++ ["SELECT 1"].
Proof.
  intros Hentry Hc out.
  assert (<[connection pooled := {| driver_kind := driver_kind c;
                                    ended := ended c;
                                    statements := statements c ++ ["SELECT 1"] |}]>
            (driver st) !! connection pooled
          = Some {| driver_kind := driver_kind c;
                    ended := ended c;
                    statements := statements c ++ ["SELECT 1"] |}) as Hsent.
  { apply list_lookup_insert_eq. by eapply lookup_lt_Some. }
  unfold out, healthCheck, send, set_driver. eff_unfold. rewrite Hentry.
  destruct (resourceType pooled); simpl; rewrite Hc;
    (destruct (connection_query env (connection pooled) "SELECT 1") as [[]|e]; simpl;
     [split; [done|]; split; [done|]; eauto|]);
    match goal with |- context [closeConnection env session ?s] =>
      rewrite (closeConnection_present env session s pooled Hentry)
    end; simpl; rewrite Hsent;
    destruct (connection_end env (connection pooled)) as [[]|e']; simpl;
    (split; [done|]; split; [done|]);
    first [ eexists; split; [apply list_lookup_insert_eq; rewrite length_insert;
                             by eapply lookup_lt_Some|done]
          | eauto ].
Qed.

Lemma healthCheck_outcomes_witness :
  (healthCheck example_drivers_stuck "session-1" example_pool).1
  = Throw (ErrorObj Error "Connection terminated unexpectedly").
Proof.
  destruct (healthCheck_outcomes example_drivers_stuck "session-1" example_pool
              {| sessionId := "session-1";
                 connection := 0%nat;
                 resourceType := postgres;
                 createdAt := 1700000000000%Z;
                 lastUsed := 1700000000001%Z |}
              {| driver_kind := postgres; ended := false; statements := [] |}
              eq_refl eq_refl) as (H & _).
  exact H.
Defined.

(** *** Eviction of idle entries *)

Lemma closeEach_connections env sessionIds st :
  connections (closeEach env sessionIds st)
  = foldl (λ m k, delete k m) (connections st) sessionIds.
Proof.
  revert st. induction sessionIds as [|k ks IH]; intros st; simpl; [done|].
  unfold closeEach in *. simpl. by rewrite IH, closeConnection_connections.
Qed.

Lemma elem_of_toDelete maxIdleTimeMs now order st session :
  session ∈ toDelete maxIdleTimeMs now order st
  ↔ session ∈ order
    ∧ ∃ pooled, connections st !! session = Some pooled
                ∧ idle maxIdleTimeMs now pooled = true.
Proof.
  unfold toDelete. rewrite !list_elem_of_In, filter_In.
  destruct (connections st !! session) as [pooled|]; split.
  - intros [? ?]. eauto.
  - intros [? (p & [= <-] & ?)]. done.
  - intros [_ ?]. done.
  - intros [_ (p & ? & _)]. done.
Qed.

(** X21.  The sweep of idle entries, whatever the order in which the map
    hands out its entries: an entry is removed exactly when it has been
    idle for more than [maxIdleTimeMs]; an entry last used exactly
    [maxIdleTimeMs] ago, or later, stays, unchanged. *)
Theorem cleanupIdleConnections_evicts env maxIdleTimeMs now order st :
  TcpGateway.enumerates order (connections st) →
  ∀ session pooled,
    connections st !! session = Some pooled →
    ((maxIdleTimeMs < now - lastUsed pooled)%Z →
     connections (cleanupIdleConnections env maxIdleTimeMs now order st) !! session = None)
    ∧ ((now - lastUsed pooled ≤ maxIdleTimeMs)%Z →
       connections (cleanupIdleConnections env maxIdleTimeMs now order st) !! session
       = Some pooled).
Proof.
  intros [_ Hkeys] session pooled Hentry.
  unfold cleanupIdleConnections. rewrite closeEach_connections, lookup_foldl_delete.
  split; intros Hage.
  - rewrite decide_True; [done|]. apply elem_of_toDelete. split.
    + apply Hkeys. eauto.
    + exists pooled. split; [done|]. unfold idle. by apply Z.ltb_lt.
  - rewrite decide_False; [done|]. intros Hin.
    apply elem_of_toDelete in Hin as (_ & p & Hp & Hidle). simplify_eq.
    unfold idle in Hidle. apply Z.ltb_lt in Hidle. lia.
Qed.

Lemma cleanupIdleConnections_evicts_witness :
  connections (cleanupIdleConnections example_drivers default_maxIdleTimeMs
                 1700000300001 ["session-1"] example_pool) !! "session-1"
  = Some {| sessionId := "session-1";
            connection := 0%nat;
            resourceType := postgres;
            createdAt := 1700000000000%Z;
            lastUsed := 1700000000001%Z |}.
Proof.
  apply (cleanupIdleConnections_evicts example_drivers default_maxIdleTimeMs
           1700000300001 ["session-1"] example_pool).
  - split; [apply NoDup_singleton|].
    intros k. rewrite list_elem_of_singleton. unfold example_pool. simpl. split.
    + intros ->. by eexists.
    + intros [x Hx]. apply lookup_singleton_Some in Hx as [-> _]. done.
  - reflexivity.
  - vm_compute. discriminate.
Defined.

(** X22.  Use keeps a connection alive: after [getConnection] at time
    [date], a sweep at any time up to [maxIdleTimeMs] later leaves the entry
    in the pool, with the same connection. *)
Theorem getConnection_then_cleanup env maxIdleTimeMs now order session date st pooled :
  connections st !! session = Some pooled →
  (now - date ≤ maxIdleTimeMs)%Z →
  connections
    (cleanupIdleConnections env maxIdleTimeMs now order (getConnection session date st).2)
    !! session
  = Some (set_lastUsed date pooled).
Proof.
  intros Hentry Hage.
  rewrite (getConnection_existing _ _ _ _ Hentry). simpl.
  unfold cleanupIdleConnections. rewrite closeEach_connections, lookup_foldl_delete.
  rewrite decide_False; [apply lookup_insert_eq|].
  intros Hin. apply elem_of_toDelete in Hin as (_ & p & Hp & Hidle).
  simpl in Hp. rewrite lookup_insert_eq in Hp. simplify_eq.
  unfold idle in Hidle. simpl in Hidle. apply Z.ltb_lt in Hidle. lia.
Qed.

Lemma getConnection_then_cleanup_witness :
  connections
    (cleanupIdleConnections example_drivers default_maxIdleTimeMs 1700000500000
       ["session-1"] (getConnection "session-1" 1700000400000 example_pool).2)
    !! "session-1"
  = Some {| sessionId := "session-1";
            connection := 0%nat;
            resourceType := postgres;
            createdAt := 1700000000000%Z;
            lastUsed := 1700000400000%Z |}.
Proof.
  apply (getConnection_then_cleanup example_drivers default_maxIdleTimeMs 1700000500000
           ["session-1"] "session-1" 1700000400000 example_pool
           {| sessionId := "session-1";
              connection := 0%nat;
              resourceType := postgres;
              createdAt := 1700000000000%Z;
              lastUsed := 1700000000001%Z |}).
  - reflexivity.
  - vm_compute. discriminate.
Defined.

(** *** What every reachable pool satisfies *)

(** Entries that come from entries of a consistent store, over driver
    connections whose state is the same for them. *)
Lemma consistent_from st st' :
  consistent st →
  (∀ session pooled',
     connections st' !! session = Some pooled' →
     ∃ pooled, connections st !! session = Some pooled
               ∧ sessionId pooled' = sessionId pooled
               ∧ connection pooled' = connection pooled
               ∧ resourceType pooled' = resourceType pooled) →
  (∀ session pooled' c,
     connections st' !! session = Some pooled' →
     driver st !! connection pooled' = Some c →
     ∃ c', driver st' !! connection pooled' = Some c'
           ∧ ended c' = ended c
           ∧ driver_kind c' = driver_kind c) →
  consistent st'.
Proof.
  intros Hst Hentries Hdriver session pooled' Hentry.
  destruct (Hentries _ _ Hentry) as (pooled & Hp & Hid & Hconn & Hkind).
  destruct (Hst _ _ Hp) as (Hsid & (c & Hc & Hended & Hdk) & Hinj).
  split; [congruence|]. split.
  - rewrite <-Hconn in Hc. destruct (Hdriver _ _ _ Hentry Hc) as (c' & Hc' & He & Hk).
    exists c'. split; [done|]. split; congruence.
  - intros other q' Hq' Heq.
    destruct (Hentries _ _ Hq') as (q & Hq & _ & Hqc & _).
    apply (Hinj other q Hq). congruence.
Qed.

Lemma consistent_touch session date st :
  consistent st → consistent (touch session date st).2.
Proof.
  intros Hst. apply (consistent_from st); [done|..];
    unfold touch, modify, set_connections; simpl.
  - intros k p' Hp'. destruct (connections st !! session) as [p|] eqn:Hp; [|eauto 10].
    destruct (decide (k = session)) as [->|Hne].
    + rewrite lookup_insert_eq in Hp'. simplify_eq. eauto 10.
    + rewrite lookup_insert_ne in Hp' by done. eauto 10.
  - intros k p' c _ Hc. eauto.
Qed.

Lemma consistent_closeConnection env session st :
  consistent st → consistent (closeConnection env session st).2.
Proof.
  intros Hst. destruct (connections st !! session) as [pooled|] eqn:Hentry.
  2: { by rewrite closeConnection_absent. }
  rewrite (closeConnection_present _ _ _ _ Hentry). simpl.
  apply (consistent_from st); [done|..]; simpl.
  - intros k p' Hp'. apply lookup_delete_Some in Hp' as [_ Hp']. eauto 10.
  - intros k p' c Hp' Hc. apply lookup_delete_Some in Hp' as [Hne Hp'].
    assert (connection p' ≠ connection pooled) as Hother.
    { intros Heq. destruct (Hst _ _ Hentry) as (_ & _ & Hinj).
      apply Hne. symmetry. by apply (Hinj k p'). }
    destruct (connection_end env (connection pooled)) as [[]|e]; [|eauto].
    destruct (driver st !! connection pooled) as [d|]; [|eauto].
    rewrite list_lookup_insert_ne by done. eauto.
Qed.

Lemma consistent_closeEach env sessionIds st :
  consistent st → consistent (closeEach env sessionIds st).
Proof.
  revert st. induction sessionIds as [|k ks IH]; intros st Hst; [done|].
  apply IH. by apply consistent_closeConnection.
Qed.

Lemma consistent_send env c sql st :
  consistent st → consistent (send env c sql st).2.
Proof.
  intros Hst.
  assert ((send env c sql st).2
          = set_driver
              (λ l, match l !! c with
                    | Some d =>
                        <[c := {| driver_kind := driver_kind d;
                                  ended := ended d;
                                  statements := statements d ++ [sql] |}]> l
                    | None => l
                    end) st) as ->.
  { unfold send. eff_unfold. by destruct (connection_query env c sql). }
  apply (consistent_from st); [done|eauto 10|]. unfold set_driver. simpl.
  intros k p' d Hp' Hd. destruct (driver st !! c) as [dc|] eqn:Hc; [|eauto].
  destruct (decide (connection p' = c)) as [Heq|Hne].
  - rewrite Heq in *. simplify_eq.
    rewrite list_lookup_insert_eq by (by eapply lookup_lt_Some). eauto.
  - rewrite list_lookup_insert_ne by done. eauto.
Qed.

Lemma consistent_createConnection env session credentials kind date0 date1 st :
  consistent st →
  consistent (createConnection env session credentials kind date0 date1 st).2.
Proof.
  intros Hst. destruct (connections st !! session) as [existing|] eqn:Hentry.
  { rewrite (createConnection_existing _ _ _ _ _ _ _ _ Hentry). simpl.
    pose proof (consistent_touch session date0 st Hst) as H.
    unfold touch, modify, set_connections in *. simpl in H. by rewrite Hentry in H. }
  assert (∀ k p, connections st !! k = Some p → connection p < length (driver st))%nat
    as Hbound.
  { intros k p Hp. destruct (Hst _ _ Hp) as (_ & (c & Hc & _) & _).
    by eapply lookup_lt_Some. }
  unfold createConnection. eff_unfold. rewrite Hentry.
  unfold createPostgresConnection, createMySQLConnection, new_connection, set_driver,
    set_connections. eff_unfold.
  assert (∀ made,
            driver_kind made = kind → ended made = false →
            consistent
              {| driver := driver st ++ [made];
                 connections :=
                   <[session := {| sessionId := session;
                                   connection := length (driver st);
                                   resourceType := kind;
                                   createdAt := date0;
                                   lastUsed := date1 |}]> (connections st) |}) as Hnew.
  { intros made Hkind Hopen k p Hp. simpl in *.
    destruct (decide (k = session)) as [->|Hne].
    - rewrite lookup_insert_eq in Hp. simplify_eq. simpl. split; [done|]. split.
      + exists made. by rewrite lookup_fresh0.
      + intros other q Hq Heq. destruct (decide (other = session)) as [|Hne]; [done|].
        rewrite lookup_insert_ne in Hq by done. specialize (Hbound _ _ Hq). lia.
    - rewrite lookup_insert_ne in Hp by done.
      destruct (Hst _ _ Hp) as (Hsid & (c & Hc & Hended & Hdk) & Hinj).
      split; [done|]. split.
      + exists c. split; [by apply lookup_app_l_Some|done].
      + intros other q Hq Heq. destruct (decide (other = session)) as [->|Hne'].
        * rewrite lookup_insert_eq in Hq. simplify_eq. simpl in Heq.
          specialize (Hbound _ _ Hp). lia.
        * rewrite lookup_insert_ne in Hq by done. by apply (Hinj other q). }
  destruct kind.
  - destruct (pg_connect env _); simpl; [by apply Hnew|done].
  - destruct (mysql_createConnection env _); simpl; [by apply Hnew|done].
Qed.

Lemma consistent_healthCheck env session st :
  consistent st → consistent (healthCheck env session st).2.
Proof.
  intros Hst. unfold healthCheck. eff_unfold.
  destruct (connections st !! session) as [pooled|]; [|done].
  assert (∀ s, match resourceType pooled with
               | postgres => send env (connection pooled) "SELECT 1"
               | mysql => send env (connection pooled) "SELECT 1"
               end s = send env (connection pooled) "SELECT 1" s) as Hsame
    by (by destruct (resourceType pooled)).
  rewrite Hsame.
  pose proof (consistent_send env (connection pooled) "SELECT 1" st Hst) as Hsent.
  destruct (send env (connection pooled) "SELECT 1" st) as [[[]|e] st1]; [done|]. simpl in *.
  pose proof (consistent_closeConnection env session st1 Hsent) as Hclosed.
  by destruct (closeConnection env session st1) as [[[]|e'] st2].
Qed.

(** X23.  In every store reached from the empty pool by the pool's methods,
    run one after the other: each entry is filed under its own session id;
    its connection exists, has not been ended by the pool and was made by
    the driver named by its [resourceType]; and no two session ids hold the
    same connection. *)
Theorem pool_consistent st : rtc step initial st → consistent st.
Proof.
  intros Hreach.
  assert (∀ a b, rtc step a b → consistent a → consistent b) as Hkeep.
  { induction 1 as [|st1 st2 st3 Hstep _ IH]; [done|].
    intros H1. apply IH.
    destruct Hstep as [S d s|env S c k d0 d1 s|S d s|env S s|env S s
                      |env maxIdle t order s H|env order s H].
    - destruct (connections s !! S) as [p|] eqn:Hp.
      + rewrite (getConnection_existing _ _ _ _ Hp). simpl.
        pose proof (consistent_touch S d s H1) as Ht.
        unfold touch, modify, set_connections in *. simpl in Ht. by rewrite Hp in Ht.
      + by rewrite getConnection_absent.
    - by apply consistent_createConnection.
    - by apply consistent_touch.
    - by apply consistent_closeConnection.
    - by apply consistent_healthCheck.
    - by apply consistent_closeEach.
    - simpl. intros k p Hp. simpl in Hp. by rewrite lookup_empty in Hp. }
  apply (Hkeep initial); [done|]. intros k p Hp. simpl in Hp. by rewrite lookup_empty in Hp.
Qed.

Lemma pool_consistent_witness : consistent example_pool.
Proof.
  apply (pool_consistent example_pool).
  apply rtc_once.
  apply (step_createConnection example_drivers "session-1" example_credentials postgres
           1700000000000 1700000000001 initial).
Defined.

(** *** Shutting the pool down *)

Lemma closeConnection_driver_kept env session st :
  driver_kept st (closeConnection env session st).2.
Proof.
  intros i c Hc. destruct (connections st !! session) as [pooled|] eqn:Hentry.
  2: { rewrite closeConnection_absent by done. eauto. }
  rewrite (closeConnection_present _ _ _ _ Hentry). simpl.
  destruct (connection_end env (connection pooled)) as [[]|e]; [|eauto].
  destruct (driver st !! connection pooled) as [d|] eqn:Hd; [|eauto].
  destruct (decide (i = connection pooled)) as [->|Hne].
  - rewrite list_lookup_insert_eq by (by eapply lookup_lt_Some). eauto.
  - rewrite list_lookup_insert_ne by done. eauto.
Qed.

Lemma closeEach_driver_kept env sessionIds st :
  driver_kept st (closeEach env sessionIds st).
Proof.
  revert st. induction sessionIds as [|k ks IH]; intros st i c Hc; [eauto|].
  destruct (closeConnection_driver_kept env k st i c Hc) as (c1 & Hc1 & H1).
  destruct (IH (closeConnection env k st).2 i c1 Hc1) as (c2 & Hc2 & H2).
  exists c2. split; [done|auto].
Qed.

(** X24.  [closeAllConnections], whatever the order in which the map hands
    out its keys: it never fails and leaves the pool empty, also when
    [end()] throws for some or all connections; and every connection that
    was pooled and whose [end()] succeeds has been ended. *)
Theorem closeAllConnections_shuts_down env order st :
  TcpGateway.enumerates order (connections st) →
  let out := closeAllConnections env order st in
  out.1 = Ok tt
  ∧ connections out.2 = ∅
  ∧ getConnectionCount out.2 = 0%nat
  ∧ (∀ session pooled c,
       connections st !! session = Some pooled →
       driver st !! connection pooled = Some c →
       connection_end env (connection pooled) = Ok tt →
       ∃ c', driver out.2 !! connection pooled = Some c' ∧ ended c' = true).
Proof.
  intros [Hnodup Hkeys] out. split; [done|]. split; [done|].
  split; [apply map_size_empty|].
  intros session pooled c Hentry Hc Hend. unfold out, closeAllConnections. simpl.
  assert (session ∈ order) as Hin by (apply Hkeys; eauto).
  apply list_elem_of_split in Hin as (before & after & ->).
  unfold closeEach. rewrite foldl_app. simpl. fold (closeEach env before st).
  set (st1 := closeEach env before st).
  match goal with |- context [foldl ?f ?s after] => fold (closeEach env after s) end.
  assert (connections st1 !! session = Some pooled) as Hentry1.
  { unfold st1. rewrite closeEach_connections, lookup_foldl_delete.
    rewrite decide_False; [done|].
    apply NoDup_app in Hnodup as (_ & Hdisj & _). intros Hin. apply (Hdisj _ Hin).
    apply list_elem_of_here. }
  destruct (closeEach_driver_kept env before st _ c Hc) as (c1 & Hc1 & _). fold st1 in Hc1.
  assert (∃ c2, driver (closeConnection env session st1).2 !! connection pooled = Some c2
                ∧ ended c2 = true) as (c2 & Hc2 & He2).
  { rewrite (closeConnection_present _ _ _ _ Hentry1). simpl. rewrite Hend, Hc1.
    eexists. split; [apply list_lookup_insert_eq; by eapply lookup_lt_Some|done]. }
  destruct (closeEach_driver_kept env after _ _ c2 Hc2) as (c3 & Hc3 & He3). eauto.
Qed.

Lemma closeAllConnections_shuts_down_witness :
  ∃ c', driver (closeAllConnections example_drivers ["session-1"] example_pool).2 !! 0%nat
        = Some c'
        ∧ ended c' = true.
Proof.
  destruct (closeAllConnections_shuts_down example_drivers ["session-1"] example_pool)
    as (_ & _ & _ & H).
  - split; [apply NoDup_singleton|].
    intros k. rewrite list_elem_of_singleton. unfold example_pool. simpl. split.
    + intros ->. by eexists.
    + intros [x Hx]. apply lookup_singleton_Some in Hx as [-> _]. done.
  - exact (H "session-1"
             {| sessionId := "session-1";
                connection := 0%nat;
                resourceType := postgres;
                createdAt := 1700000000000%Z;
                lastUsed := 1700000000001%Z |}
             {| driver_kind := postgres; ended := false; statements := [] |}
             eq_refl eq_refl eq_refl).
Defined.
End pool_methods.
